(** * LegalAI front end: the semantic-matching utility and its caller

    A shallow embedding of [legal-ai-frontend/src/utils/semanticMatcher.js]
    (class [SemanticMatcher]) and of the query-analysis effect of the
    clause-location step ([ClauseLocationStep]), with the properties the
    natural-language specification states about them.

    JavaScript strings are sequences of UTF-16 code units, promises that
    are awaited are computations that either complete normally or throw,
    and [console.error] appends to a console that survives a throw. *)

From Stdlib Require Import List NArith Arith Bool Ascii String Lia.
From Stdlib Require Import Floats.SpecFloat.
Import ListNotations.

Set Implicit Arguments.
Set Warnings "-notation-for-abbreviation,-register-all".

(* ================================================================== *)
(** * JavaScript strings *)
(* ================================================================== *)

Module JsString.

(** One UTF-16 code unit.  Every code unit is below 65536; the functions
    below do not depend on that bound. *)
Definition code_unit : Type := N.

Definition t : Type := list code_unit.

(** An ASCII source literal, one code unit per character. *)
Fixpoint lit (s : string) : t :=
  match s with
  | EmptyString => []
  | String a rest => N_of_ascii a :: lit rest
  end.

(** [s.length] *)
Definition length (s : t) : nat := List.length s.

(** [a === b] on two strings. *)
Fixpoint eqb (a b : t) : bool :=
  match a, b with
  | [], [] => true
  | x :: a', y :: b' => N.eqb x y && eqb a' b'
  | _, _ => false
  end.

(** [s.startsWith(p)] *)
Fixpoint starts_with (p s : t) : bool :=
  match p, s with
  | [], _ => true
  | x :: p', y :: s' => N.eqb x y && starts_with p' s'
  | _ :: _, [] => false
  end.

(** [s.split(sep)] for a separator of exactly one code unit: the pieces
    between the occurrences of [sep], empty pieces included; the empty
    string gives one empty piece. *)
Fixpoint split_on (sep : code_unit) (s : t) : list t :=
  match s with
  | [] => [[]]
  | c :: rest =>
      if N.eqb c sep then [] :: split_on sep rest
      else match split_on sep rest with
           | [] => [[c]]
           | piece :: pieces => (c :: piece) :: pieces
           end
  end.

(** [parts.join(sep)] on an array of strings. *)
Fixpoint join (sep : t) (parts : list t) : t :=
  match parts with
  | [] => []
  | [p] => p
  | p :: rest => p ++ sep ++ join sep rest
  end.

Definition space : code_unit := 32%N.

(** The code units that ECMAScript classes as WhiteSpace or
    LineTerminator (what [String.prototype.trim] removes). *)
Definition is_whitespace (c : code_unit) : bool :=
  existsb (N.eqb c)
    [9; 10; 11; 12; 13; 32; 160; 5760; 8192; 8193; 8194; 8195; 8196; 8197;
     8198; 8199; 8200; 8201; 8202; 8232; 8233; 8239; 8287; 12288; 65279]%N.

(** The maximal runs of non-whitespace code units of [s], in order: the
    tokens that whitespace separates.  [cur] is the run being read,
    reversed. *)
Fixpoint ws_tokens_from (cur : t) (s : t) : list t :=
  match s with
  | [] => match cur with [] => [] | _ => [rev cur] end
  | c :: rest =>
      if is_whitespace c then
        match cur with
        | [] => ws_tokens_from [] rest
        | _ => rev cur :: ws_tokens_from [] rest
        end
      else ws_tokens_from (c :: cur) rest
  end.

Definition ws_tokens (s : t) : list t := ws_tokens_from [] s.

End JsString.

Notation jsstring := JsString.t.
Notation lit := JsString.lit.

(* ================================================================== *)
(** * JavaScript values, errors and computations *)
(* ================================================================== *)

(** The values the utility handles: what [JSON.parse] produces, the
    object literals of the source, [undefined], and the members every
    plain object inherits from [Object.prototype]. *)
Inductive value : Type :=
| VUndefined
| VNull
| VBool (b : bool)
| VNumber (x : spec_float)
| VString (s : jsstring)
| VArray (elems : list value)
| VObject (props : list (jsstring * value))
| VBuiltin (name : jsstring).

Inductive js_error : Type :=
| HttpError (status : N)   (* new Error(`HTTP error! status: ${status}`) *)
| TypeError (about : jsstring)
| HostError (message : jsstring).   (* what fetch or a parser rejects with *)

Inductive completion (A : Type) : Type :=
| Normal (a : A)
| Throw (e : js_error).

Arguments Normal {A} a.
Arguments Throw {A} e.

(** One [console.error(message, error)] call. *)
Definition console : Type := list (jsstring * js_error).

(** A computation: it reads and extends the console, then completes. *)
Definition js (A : Type) : Type := console -> completion A * console.

Definition ret {A} (a : A) : js A := fun c => (Normal a, c).

Definition throw {A} (e : js_error) : js A := fun c => (Throw e, c).

Definition bind {A B} (m : js A) (k : A -> js B) : js B :=
  fun c =>
    match m c with
    | (Normal a, c') => k a c'
    | (Throw e, c') => (Throw e, c')
    end.

(** [await p] for a promise whose settlement is known. *)
Definition await {A} (p : completion A) : js A := fun c => (p, c).

(** [try { body } catch (error) { handler }] *)
Definition try_catch {A} (body : js A) (handler : js_error -> js A) : js A :=
  fun c =>
    match body c with
    | (Normal a, c') => (Normal a, c')
    | (Throw e, c') => handler e c'
    end.

Definition console_error (message : jsstring) (error : js_error) : js unit :=
  fun c => (Normal tt, c ++ [(message, error)]).

Declare Scope js_scope.
Delimit Scope js_scope with js.
Notation "x <- m ;; k" := (bind m (fun x => k))
  (at level 61, m at next level, right associativity) : js_scope.
Notation "m ;;; k" := (bind m (fun _ => k))
  (at level 61, right associativity) : js_scope.

(** ** Property access *)

(** Own property lookup in an object's property list. *)
Fixpoint own_property (props : list (jsstring * value)) (key : jsstring)
  : option value :=
  match props with
  | [] => None
  | (k, v) :: rest => if JsString.eqb k key then Some v else own_property rest key
  end.

(** The property names of [Object.prototype] (ECMAScript, with the
    legacy accessors of its annex B). *)
Definition object_prototype_names : list jsstring :=
  map lit
    ["constructor"; "hasOwnProperty"; "isPrototypeOf"; "propertyIsEnumerable";
     "toLocaleString"; "toString"; "valueOf"; "__proto__";
     "__defineGetter__"; "__defineSetter__"; "__lookupGetter__";
     "__lookupSetter__"]%string.

Definition in_object_prototype (key : jsstring) : bool :=
  existsb (JsString.eqb key) object_prototype_names.

(** [obj[key]] on a plain object: the own property, else what
    [Object.prototype] holds under that name, else [undefined]. *)
Definition get_member (props : list (jsstring * value)) (key : jsstring) : value :=
  match own_property props key with
  | Some v => v
  | None => if in_object_prototype key then VBuiltin key else VUndefined
  end.

(** ToBoolean *)
Definition truthy (v : value) : bool :=
  match v with
  | VUndefined | VNull => false
  | VBool b => b
  | VNumber x =>
      match x with
      | S754_zero _ | S754_nan => false
      | _ => true
      end
  | VString s => negb (JsString.eqb s [])
  | VArray _ | VObject _ | VBuiltin _ => true
  end.

(** [v === 'literal'] *)
Definition strict_equals_string (v : value) (s : jsstring) : bool :=
  match v with
  | VString s' => JsString.eqb s' s
  | _ => false
  end.

(* ================================================================== *)
(** * The host environment and the data of [semanticMatcher.js] *)
(* ================================================================== *)

Inductive http_method : Type := GET | POST.

(** A [FormData] body: the appended fields, in order. *)
Definition form_data : Type := list (jsstring * jsstring).

Definition FormData_new : form_data := [].

Definition FormData_append (fd : form_data) (name val : jsstring) : form_data :=
  fd ++ [(name, val)].

Record request : Type := mkRequest {
  url : jsstring;
  method : http_method;
  body : option form_data
}.

(** What [fetch] resolves to: the [ok] flag, the status, and how
    [response.json()] settles. *)
Record response : Type := mkResponse {
  ok : bool;
  status : N;
  json : completion value
}.

(** The analysis object the matcher handles (section 3 of the
    specification; the fields the source reads and writes). *)
Record QueryAnalysis : Type := mkQueryAnalysis {
  original_query : jsstring;
  keywords : list jsstring;
  synonyms : list jsstring;
  expanded_terms : list jsstring;
  intent : jsstring;
  legal_entities : list jsstring
}.

Definition strings (l : list jsstring) : value := VArray (map VString l).

(** The analysis as the JavaScript object it is. *)
Definition analysis_object (a : QueryAnalysis) : value :=
  VObject
    [(lit "original_query", VString (original_query a));
     (lit "keywords", strings (keywords a));
     (lit "synonyms", strings (synonyms a));
     (lit "expanded_terms", strings (expanded_terms a));
     (lit "intent", VString (intent a));
     (lit "legal_entities", strings (legal_entities a))].

(** [`${x}`] for a value that is a string or [undefined]. *)
Definition template (x : option jsstring) : jsstring :=
  match x with
  | Some s => s
  | None => lit "undefined"
  end.

(** [query.split(' ').filter(word => word.length > 2)] *)
Definition fallback_keywords (query : jsstring) : list jsstring :=
  filter (fun word => 2 <? JsString.length word)
         (JsString.split_on JsString.space query).

(* ================================================================== *)
(** * class SemanticMatcher *)
(* ================================================================== *)

Section SemanticMatcher.

Local Open Scope js_scope.

(** The clause objects are opaque to the front end: it only hands them
    to [JSON.stringify], which may throw (a cyclic object, a BigInt). *)
Variable clause : Type.
Variable JSON_stringify : list clause -> completion jsstring.

(** [this.baseUrl = process.env.REACT_APP_API_BASE_URL], unset or a string. *)
Variable baseUrl : option jsstring.

(** How the host settles [fetch(url, init)]. *)
Variable fetch : request -> completion response.

Definition analyze_query_request (query : jsstring) : request :=
  let formData := FormData_new in
  let formData := FormData_append formData (lit "query") query in
  mkRequest (template baseUrl ++ lit "/analyze_query/") POST (Some formData).

(** The object the [catch] block of [analyzeQuery] returns. *)
Definition fallback_analysis (query : jsstring) : QueryAnalysis :=
  {| original_query := query;
     keywords := fallback_keywords query;
     synonyms := [];
     expanded_terms := [];
     intent := lit "general";
     legal_entities := [] |}.

Definition analyzeQuery (query : jsstring) : js value :=
  try_catch
    (response <- await (fetch (analyze_query_request query)) ;;
     if negb (ok response) then throw (HttpError (status response))
     else await (json response))
    (fun error =>
       console_error (lit "Error analyzing query:") error ;;;
       ret (analysis_object (fallback_analysis query))).

Definition semantic_search_request (query stringified : jsstring) : request :=
  let formData := FormData_new in
  let formData := FormData_append formData (lit "query") query in
  let formData := FormData_append formData (lit "clauses") stringified in
  mkRequest (template baseUrl ++ lit "/semantic_search/") POST (Some formData).

(** The object the [catch] block of [semanticSearch] returns. *)
Definition fallback_search (query : jsstring) : value :=
  VObject
    [(lit "query", VString query);
     (lit "matches", VArray []);
     (lit "segments", VArray []);
     (lit "query_analysis",
      VObject
        [(lit "original_query", VString query);
         (lit "keywords", strings (fallback_keywords query));
         (lit "intent", VString (lit "general"))])].

Definition semanticSearch (query : jsstring) (clauses : list clause) : js value :=
  try_catch
    (stringified <- await (JSON_stringify clauses) ;;
     response <- await (fetch (semantic_search_request query stringified)) ;;
     if negb (ok response) then throw (HttpError (status response))
     else await (json response))
    (fun error =>
       console_error (lit "Error performing semantic search:") error ;;;
       ret (fallback_search query)).

(** ** getConfidenceStyling *)

Definition styling (color bgColor borderColor icon label : jsstring) : value :=
  VObject
    [(lit "color", VString color);
     (lit "bgColor", VString bgColor);
     (lit "borderColor", VString borderColor);
     (lit "icon", VString icon);
     (lit "label", VString label)].

(** The icons of the first two tiers are U+2713 and U+26A0. *)
Definition styles : list (jsstring * value) :=
  [(lit "high",
    styling (lit "text-green-400") (lit "bg-green-500/20")
            (lit "border-green-500/30") [10003%N] (lit "High Confidence"));
   (lit "medium",
    styling (lit "text-yellow-400") (lit "bg-yellow-500/20")
            (lit "border-yellow-500/30") [9888%N] (lit "Medium Confidence"));
   (lit "low",
    styling (lit "text-orange-400") (lit "bg-orange-500/20")
            (lit "border-orange-500/30") (lit "?") (lit "Low Confidence"))].

(** [styles[confidence] || styles.low]; the argument is a string or
    [undefined], and as a property key it is its template form. *)
Definition getConfidenceStyling (confidence : option jsstring) : value :=
  let found := get_member styles (template confidence) in
  if truthy found then found else get_member styles (lit "low").

(** ** generateSuggestions *)

(** [suggestions.push(s)] *)
Definition push (suggestions : list jsstring) (s : jsstring) : list jsstring :=
  suggestions ++ [s].

(** [a.slice(0, n)] *)
Definition slice0 {A} (n : nat) (a : list A) : list A := firstn n a.

Definition more_specific : jsstring := lit "Try using more specific keywords".

Definition also_try : jsstring := lit "Also try: ".

(** A double-quoted phrase inside a single-quoted source literal. *)
Definition quoted (s : jsstring) : jsstring := [34%N] ++ s ++ [34%N].

(** The [switch (analysis.intent)]: the suggestion of the matching
    [case], none without one. *)
Definition intent_suggestion (intent : jsstring) : option jsstring :=
  if JsString.eqb intent (lit "location") then
    Some (lit "Try searching for specific clause titles or section numbers")
  else if JsString.eqb intent (lit "explanation") then
    Some (lit "Try asking " ++ quoted (lit "What does [specific term] mean?"))
  else if JsString.eqb intent (lit "responsibility") then
    Some (lit "Try searching for " ++ quoted (lit "liability") ++ lit ", "
            ++ quoted (lit "responsibility") ++ lit ", or "
            ++ quoted (lit "obligation"))
  else if JsString.eqb intent (lit "timing") then
    Some (lit "Try searching for " ++ quoted (lit "deadline") ++ lit ", "
            ++ quoted (lit "expiration") ++ lit ", or "
            ++ quoted (lit "time period"))
  else if JsString.eqb intent (lit "process") then
    Some (lit "Try searching for " ++ quoted (lit "procedure") ++ lit ", "
            ++ quoted (lit "steps") ++ lit ", or "
            ++ quoted (lit "how to"))
  else None.

Definition generateSuggestions (analysis : QueryAnalysis) : list jsstring :=
  let suggestions := [] in
  let suggestions :=
    if List.length (keywords analysis) <? 3
    then push suggestions more_specific else suggestions in
  let suggestions :=
    if 0 <? List.length (synonyms analysis)
    then push suggestions
           (also_try ++ JsString.join (lit ", ") (slice0 3 (synonyms analysis)))
    else suggestions in
  let suggestions :=
    match intent_suggestion (intent analysis) with
    | Some s => push suggestions s
    | None => suggestions
    end in
  slice0 3 suggestions.

(** ** isAvailable *)

Definition health_request : request :=
  mkRequest (template baseUrl ++ lit "/health/") GET None.

(** [data.semantic_matcher]: a TypeError on [null] and [undefined], the
    member of an object, and [undefined] on the other values, none of
    whose prototypes has a member of this name. *)
Definition semantic_matcher_of (data : value) : completion value :=
  match data with
  | VUndefined | VNull => Throw (TypeError (lit "semantic_matcher"))
  | VObject props => Normal (get_member props (lit "semantic_matcher"))
  | VBool _ | VNumber _ | VString _ | VArray _ | VBuiltin _ => Normal VUndefined
  end.

Definition isAvailable : js bool :=
  try_catch
    (response <- await (fetch health_request) ;;
     data <- await (json response) ;;
     field <- await (semantic_matcher_of data) ;;
     ret (strict_equals_string field (lit "available")))
    (fun error =>
       console_error (lit "Error checking semantic matcher availability:") error ;;;
       ret false).

End SemanticMatcher.

(* ================================================================== *)
(** * ClauseLocationStep: the query-analysis effect *)
(* ================================================================== *)

Section ClauseLocationStep.

Variable clause : Type.
Variable JSON_stringify : list clause -> completion jsstring.
Variable baseUrl : option jsstring.
Variable fetch : request -> completion response.

(** A call the component makes into the matcher. *)
Inductive engine_call : Type :=
| CallAnalyzeQuery (query : jsstring)
| CallSemanticSearch (query : jsstring) (clauses : list clause).

Definition call_query (call : engine_call) : jsstring :=
  match call with
  | CallAnalyzeQuery query => query
  | CallSemanticSearch query _ => query
  end.

(** What [setTimeout] holds: the closure [analyzeQueryDebounced], that
    is the [highlightingQuery] and [clauses] of the render that made it. *)
Definition pending : Type := (jsstring * list clause)%type.

(** [analyzeQueryDebounced]: the calls it makes, in order, and the
    console afterwards.  [analyzeQuery] is awaited first; if that throws
    the [catch] logs it and the search is skipped; the search runs only
    for a non-empty clause array. *)
Definition analyzeQueryDebounced (closure : pending) (c : console)
  : list engine_call * console :=
  let '(highlightingQuery, clauses) := closure in
  match analyzeQuery baseUrl fetch highlightingQuery c with
  | (Normal analysis, c1) =>
      if 0 <? List.length clauses then
        match semanticSearch JSON_stringify baseUrl fetch highlightingQuery clauses c1 with
        | (Normal searchResults, c2) =>
            ([CallAnalyzeQuery highlightingQuery;
              CallSemanticSearch highlightingQuery clauses],
             match searchResults with      (* searchResults.matches *)
             | VUndefined | VNull =>
                 c2 ++ [(lit "Error analyzing query:", TypeError (lit "matches"))]
             | _ => c2
             end)
        | (Throw error, c2) =>
            ([CallAnalyzeQuery highlightingQuery;
              CallSemanticSearch highlightingQuery clauses],
             c2 ++ [(lit "Error analyzing query:", error)])
        end
      else ([CallAnalyzeQuery highlightingQuery], c1)
  | (Throw error, c1) =>
      ([CallAnalyzeQuery highlightingQuery],
       c1 ++ [(lit "Error analyzing query:", error)])
  end.

(** The body of the effect: under its guard it arms the 500 ms timer
    with the closure; otherwise it does nothing. *)
Definition analysis_effect (highlightingQuery : jsstring) (clauses : list clause)
  : option pending :=
  if truthy (VString highlightingQuery) && (3 <? JsString.length highlightingQuery)
  then Some (highlightingQuery, clauses)
  else None.

Record component : Type := mkComponent {
  highlightingQuery : jsstring;
  clauses : list clause;
  timer : option pending;         (* the armed timeout, if any *)
  calls : list engine_call;       (* every matcher call made so far *)
  output : console
}.

(** First render: [useState(query)] and the first run of the effect. *)
Definition mount (query : jsstring) (cls : list clause) : component :=
  mkComponent query cls (analysis_effect query cls) [] [].

(** What happens to a mounted component.  A render with new
    dependencies first runs the cleanup of the previous run
    ([clearTimeout]), then the effect; the armed timer fires once.  The
    callback of the timer is one transition here; [async_step] below
    takes it apart at its two awaits. *)
Inductive step : component -> component -> Prop :=
| step_render : forall s query cls,
    step s (mkComponent query cls (analysis_effect query cls)
                        (calls s) (output s))
| step_timeout : forall s closure made c',
    timer s = Some closure ->
    analyzeQueryDebounced closure (output s) = (made, c') ->
    step s (mkComponent (highlightingQuery s) (clauses s) None
                        (calls s ++ made) c')
| step_unmount : forall s,
    step s (mkComponent (highlightingQuery s) (clauses s) None
                        (calls s) (output s)).

Inductive reachable (query : jsstring) (cls : list clause) : component -> Prop :=
| reachable_mount : reachable query cls (mount query cls)
| reachable_step : forall s s',
    reachable query cls s -> step s s' -> reachable query cls s'.

End ClauseLocationStep.

Arguments CallAnalyzeQuery {clause} query.
Arguments CallSemanticSearch {clause} query clauses.

(* ================================================================== *)
(** * ClauseLocationStep: the effect with its awaits *)
(* ================================================================== *)

Section AwaitPoints.

Variable clause : Type.
Variable JSON_stringify : list clause -> completion jsstring.
Variable baseUrl : option jsstring.
Variable fetch : request -> completion response.

(** The component with the callbacks that have fired and not finished:
    those suspended at [await analyzeQuery(...)] and those suspended at
    [await semanticSearch(...)], each with the query and the clauses it
    captured.  Renders can come between the awaits of a callback. *)
Record async_component : Type := mkAsync {
  current_query : jsstring;                      (* highlightingQuery *)
  current_clauses : list clause;                 (* clauses *)
  armed : option (pending clause);               (* the armed timeout, if any *)
  awaiting_analysis : list (pending clause);
  awaiting_search : list (pending clause);
  made_calls : list (engine_call clause);
  console_now : console
}.

Definition async_mount (query : jsstring) (cls : list clause) : async_component :=
  mkAsync query cls (analysis_effect query cls) [] [] [] [].

(** A callback resumes after [await analyzeQuery(highlightingQuery)]
    settled as [r], leaving the console [c1]; [others] are the callbacks
    still suspended there.  On a result it goes on to
    [semanticSearch(highlightingQuery, clauses)] for a non-empty clause
    array and suspends again; on a throw its [catch] logs. *)
Definition resume_analysis (s : async_component) (others : list (pending clause))
    (closure : pending clause) (r : completion value) (c1 : console)
  : async_component :=
  match r with
  | Normal analysis =>
      if 0 <? List.length (snd closure) then
        mkAsync (current_query s) (current_clauses s) (armed s) others
                (awaiting_search s ++ [closure])
                (made_calls s ++ [CallSemanticSearch (fst closure) (snd closure)])
                c1
      else
        mkAsync (current_query s) (current_clauses s) (armed s) others
                (awaiting_search s) (made_calls s) c1
  | Throw error =>
      mkAsync (current_query s) (current_clauses s) (armed s) others
              (awaiting_search s) (made_calls s)
              (c1 ++ [(lit "Error analyzing query:", error)])
  end.

(** A callback resumes after [await semanticSearch(...)] settled as [r]
    and reads [searchResults.matches]; it ends there. *)
Definition resume_search (s : async_component) (others : list (pending clause))
    (r : completion value) (c2 : console) : async_component :=
  mkAsync (current_query s) (current_clauses s) (armed s)
          (awaiting_analysis s) others (made_calls s)
          match r with
          | Normal VUndefined | Normal VNull =>
              c2 ++ [(lit "Error analyzing query:", TypeError (lit "matches"))]
          | Normal _ => c2
          | Throw error => c2 ++ [(lit "Error analyzing query:", error)]
          end.

Inductive async_step : async_component -> async_component -> Prop :=
| async_render : forall s query cls,
    async_step s
      (mkAsync query cls (analysis_effect query cls)
               (awaiting_analysis s) (awaiting_search s)
               (made_calls s) (console_now s))
| async_fire : forall s closure,
    armed s = Some closure ->
    async_step s
      (mkAsync (current_query s) (current_clauses s) None
               (awaiting_analysis s ++ [closure]) (awaiting_search s)
               (made_calls s ++ [CallAnalyzeQuery (fst closure)])
               (console_now s))
| async_analysed : forall s before closure after r c1,
    awaiting_analysis s = before ++ closure :: after ->
    analyzeQuery baseUrl fetch (fst closure) (console_now s) = (r, c1) ->
    async_step s (resume_analysis s (before ++ after) closure r c1)
| async_searched : forall s before closure after r c2,
    awaiting_search s = before ++ closure :: after ->
    semanticSearch JSON_stringify baseUrl fetch (fst closure) (snd closure)
                   (console_now s) = (r, c2) ->
    async_step s (resume_search s (before ++ after) r c2)
| async_unmount : forall s,
    async_step s
      (mkAsync (current_query s) (current_clauses s) None
               (awaiting_analysis s) (awaiting_search s)
               (made_calls s) (console_now s)).

Inductive async_reachable (query : jsstring) (cls : list clause)
  : async_component -> Prop :=
| async_reachable_mount : async_reachable query cls (async_mount query cls)
| async_reachable_step : forall s s',
    async_reachable query cls s -> async_step s s' -> async_reachable query cls s'.

End AwaitPoints.

(* ================================================================== *)
(** * Statements about the degraded path *)
(* ================================================================== *)

(** The backend request fails: [fetch] rejects, or the response is not
    [ok], or [response.json()] rejects. *)
Definition request_fails (fetch : request -> completion response) (req : request)
  : Prop :=
  match fetch req with
  | Throw _ => True
  | Normal r => ok r = false \/ exists e, json r = Throw e
  end.

(** The search request fails, [JSON.stringify] throwing included. *)
Definition search_fails {clause} (JSON_stringify : list clause -> completion jsstring)
    (baseUrl : option jsstring) (fetch : request -> completion response)
    (query : jsstring) (clauses : list clause) : Prop :=
  match JSON_stringify clauses with
  | Throw _ => True
  | Normal stringified =>
      request_fails fetch (semantic_search_request baseUrl query stringified)
  end.

(** Empty, or made of whitespace code units only. *)
Definition whitespace_only (query : jsstring) : bool :=
  forallb JsString.is_whitespace query.

(** Empty, or made of U+0020 only. *)
Definition spaces_only (query : jsstring) : bool :=
  forallb (N.eqb JsString.space) query.

(** No three consecutive code units of [query] are all other than U+0020.
    [run] counts the code units read since the last U+0020. *)
Fixpoint short_runs_from (run : nat) (query : jsstring) : bool :=
  match query with
  | [] => true
  | c :: rest =>
      if N.eqb c JsString.space then short_runs_from 0 rest
      else (S run <=? 2) && short_runs_from (S run) rest
  end.

Definition short_runs (query : jsstring) : bool := short_runs_from 0 query.

(** [v] is an analysis with no synonym and the general intent. *)
Definition general_analysis (v : value) : Prop :=
  exists a, v = analysis_object a /\ synonyms a = [] /\ intent a = lit "general".

(** [v] is an analysis with no keyword, no synonym and the general intent. *)
Definition neutral_analysis (v : value) : Prop :=
  exists a, v = analysis_object a /\
            keywords a = [] /\ synonyms a = [] /\ intent a = lit "general".

(** [k] stands in [q] between two occurrences of [sep], or an end of
    [q], and holds no [sep] itself. *)
Definition delimited_token (sep : JsString.code_unit) (k q : jsstring) : Prop :=
  ~ In sep k /\
  exists pre post,
    q = pre ++ k ++ post /\
    (pre = [] \/ exists p, pre = p ++ [sep]) /\
    (post = [] \/ exists p, post = sep :: p).

(** [v] is a non-null analysis whose keywords are tokens of [q] of three
    code units or more, for a given notion of token. *)
Definition keywords_are_tokens (token : jsstring -> jsstring -> Prop)
    (q : jsstring) (v : value) : Prop :=
  v <> VNull /\ v <> VUndefined /\
  exists a, v = analysis_object a /\
            forall k, In k (keywords a) -> 3 <= JsString.length k /\ token k q.

(** The token notions: what whitespace separates, what U+0020 separates. *)
Definition ws_token (k q : jsstring) : Prop := In k (JsString.ws_tokens q).

Definition space_token (k q : jsstring) : Prop :=
  delimited_token JsString.space k q.

(** The computation completes normally, from console [c], with a value
    that satisfies [P]: nothing is thrown to the caller. *)
Definition returns_with (P : value -> Prop) (run : js value) (c : console) : Prop :=
  exists v c', run c = (Normal v, c') /\ P v.

(** [v] is a search result with no match and no segment, whose
    [query_analysis] echoes [query]. *)
Definition empty_search_result (query : jsstring) (v : value) : Prop :=
  exists props analysis,
    v = VObject props /\
    own_property props (lit "matches") = Some (VArray []) /\
    own_property props (lit "segments") = Some (VArray []) /\
    own_property props (lit "query_analysis") = Some (VObject analysis) /\
    own_property analysis (lit "original_query") = Some (VString query).

(** A host whose every request is rejected (the network is down). *)
Definition offline : request -> completion response :=
  fun _ => Throw (HostError (lit "Failed to fetch")).

(** The suggestion built from the synonyms. *)
Definition synonym_suggestion (analysis : QueryAnalysis) : jsstring :=
  also_try ++ JsString.join (lit ", ") (firstn 3 (synonyms analysis)).

Definition location_suggestion : jsstring :=
  lit "Try searching for specific clause titles or section numbers".

(* ================================================================== *)
(** * ClauseLocationStep: what it renders and its highlight handler *)
(* ================================================================== *)

(** [s.substring(0, n)] *)
Definition substring0 (n : nat) (s : jsstring) : jsstring := firstn n s.

(** The text shown for a match:
    [match.text.length > 200 ? `${match.text.substring(0, 200)}...` : match.text] *)
Definition match_preview (text : jsstring) : jsstring :=
  if 200 <? JsString.length text
  then substring0 200 text ++ lit "..."
  else text.

(** A [Set] of clause indices: its elements in insertion order, each once. *)
Definition index_set : Type := list nat.

Definition set_has (s : index_set) (idx : nat) : bool := existsb (Nat.eqb idx) s.

Definition set_add (s : index_set) (idx : nat) : index_set :=
  if set_has s idx then s else s ++ [idx].

Definition set_delete (s : index_set) (idx : nat) : index_set :=
  filter (fun i => negb (Nat.eqb idx i)) s.

(** [toggleFlagClause] of the clause-breakdown step, which fills the set
    this step reads: the new set it hands to [setFlaggedClauses]. *)
Definition toggleFlagClause (flaggedClauses : index_set) (idx : nat) : index_set :=
  let newFlagged := flaggedClauses in
  if set_has newFlagged idx
  then set_delete newFlagged idx
  else set_add newFlagged idx.

Fixpoint digits (u : Decimal.uint) : jsstring :=
  match u with
  | Decimal.Nil => []
  | Decimal.D0 u' => 48%N :: digits u'
  | Decimal.D1 u' => 49%N :: digits u'
  | Decimal.D2 u' => 50%N :: digits u'
  | Decimal.D3 u' => 51%N :: digits u'
  | Decimal.D4 u' => 52%N :: digits u'
  | Decimal.D5 u' => 53%N :: digits u'
  | Decimal.D6 u' => 54%N :: digits u'
  | Decimal.D7 u' => 55%N :: digits u'
  | Decimal.D8 u' => 56%N :: digits u'
  | Decimal.D9 u' => 57%N :: digits u'
  end.

(** [`${n}`] for an array index or an index plus one: its decimal digits. *)
Definition decimal (n : nat) : jsstring := digits (Nat.to_uint n).

(** [x?.title]: [undefined] for a missing, [null] or [undefined] [x], the
    member of an object, and [undefined] on the other values, none of
    whose prototypes has a member of this name. *)
Definition optional_title (x : option value) : value :=
  match x with
  | Some (VObject props) => get_member props (lit "title")
  | _ => VUndefined
  end.

(** [Array.from(flaggedClauses).map(idx =>
       clauses[idx]?.title || `Clause ${idx + 1}`)] *)
Definition flaggedClauseQueries (flaggedClauses : index_set) (clauses : list value)
  : list value :=
  map (fun idx =>
         let title := optional_title (nth_error clauses idx) in
         if truthy title then title
         else VString (lit "Clause " ++ decimal (idx + 1)))
      flaggedClauses.

Section HighlightHandler.

(** The uploaded [File] and the [Blob] of a response are opaque. *)
Variable file : Type.
Variable blob : Type.

(** How the host settles the POST of the file and the query to
    [/highlight_pdf/]: [fetch] rejects, or resolves to a response whose
    [blob()] rejects or resolves. *)
Variable fetch_highlight : file -> jsstring -> completion (completion blob).

(** [window.URL.createObjectURL(new Blob([blob]))] *)
Variable createObjectURL : blob -> jsstring.

(** The state [handleHighlightPDF] reads and writes, with the alerts
    shown, the console and the requests sent so far. *)
Record highlight_view : Type := mkHighlightView {
  view_file : option file;
  view_query : jsstring;
  isHighlighting : bool;
  highlightedPDF : option jsstring;
  alerts : list jsstring;
  view_console : console;
  sent : list (file * jsstring)
}.

Definition guard_alert : jsstring :=
  lit "Please upload a file and enter a query to highlight!".

Definition error_alert : jsstring :=
  lit "Error highlighting PDF. Please try again.".

(** The state once the handler has run to its end. *)
Definition handleHighlightPDF (s : highlight_view) : highlight_view :=
  match view_file s with
  | Some f =>
      if truthy (VString (view_query s)) then
        (* setIsHighlighting(true), then the request *)
        let sent' := sent s ++ [(f, view_query s)] in
        let failed (error : js_error) :=
          mkHighlightView (view_file s) (view_query s) false (highlightedPDF s)
            (alerts s ++ [error_alert])
            (view_console s ++ [(lit "Highlighting error:", error)])
            sent' in
        match fetch_highlight f (view_query s) with
        | Normal (Normal b) =>
            mkHighlightView (view_file s) (view_query s) false
              (Some (createObjectURL b)) (alerts s) (view_console s) sent'
        | Normal (Throw error) => failed error
        | Throw error => failed error
        end
      else
        mkHighlightView (view_file s) (view_query s) (isHighlighting s)
          (highlightedPDF s) (alerts s ++ [guard_alert]) (view_console s) (sent s)
  | None =>
      mkHighlightView (view_file s) (view_query s) (isHighlighting s)
        (highlightedPDF s) (alerts s ++ [guard_alert]) (view_console s) (sent s)
  end.

End HighlightHandler.

(* ================================================================== *)
(** * WizardStepper: the state the steps share *)
(* ================================================================== *)

(** The navigation state, and the document state the models above read.
    [resetWizard] clears the other document fields in the same way. *)
Record wizard : Type := mkWizard {
  currentStep : nat;
  stepHistory : list nat;
  wizard_clauses : list value;
  wizard_query : jsstring;
  flaggedClauses : index_set
}.

(** [steps.length]: welcome, upload, analysis, clauses, location, chat. *)
Definition steps_length : nat := 6.

(** [useState] initial values. *)
Definition initial_wizard : wizard := mkWizard 0 [0] [] [] [].

Definition navigate (w : wizard) (target : nat) : wizard :=
  mkWizard target (stepHistory w ++ [target])
           (wizard_clauses w) (wizard_query w) (flaggedClauses w).

Definition goToNext (w : wizard) : wizard :=
  if currentStep w <? steps_length - 1
  then let nextStep := currentStep w + 1 in navigate w nextStep
  else w.

Definition goToPrevious (w : wizard) : wizard :=
  if 0 <? currentStep w
  then let prevStep := currentStep w - 1 in navigate w prevStep
  else w.

Definition goToStep (w : wizard) (stepIndex : nat) : wizard :=
  navigate w stepIndex.

Definition skipToEnd (w : wizard) : wizard :=
  let lastStep := steps_length - 1 in navigate w lastStep.

Definition resetWizard (w : wizard) : wizard := mkWizard 0 [0] [] [] [].

(** What the controls and the steps can do to the wizard. *)
Inductive wizard_event : Type :=
| Next
| Previous
| Step (stepIndex : nat)
| SkipToEnd
| ResetWizard
| SetQuery (query : jsstring)
| SetClauses (clauses : list value)
| ToggleFlag (idx : nat).

Definition wizard_step (w : wizard) (ev : wizard_event) : wizard :=
  match ev with
  | Next => goToNext w
  | Previous => goToPrevious w
  | Step stepIndex => goToStep w stepIndex
  | SkipToEnd => skipToEnd w
  | ResetWizard => resetWizard w
  | SetQuery query =>
      mkWizard (currentStep w) (stepHistory w) (wizard_clauses w) query
               (flaggedClauses w)
  | SetClauses clauses =>
      mkWizard (currentStep w) (stepHistory w) clauses (wizard_query w)
               (flaggedClauses w)
  | ToggleFlag idx =>
      mkWizard (currentStep w) (stepHistory w) (wizard_clauses w) (wizard_query w)
               (toggleFlagClause (flaggedClauses w) idx)
  end.

Definition run_wizard (events : list wizard_event) : wizard :=
  fold_left wizard_step events initial_wizard.

(** The event keeps the step inside [steps] (a [goToStep] target may not). *)
Definition in_range (ev : wizard_event) : bool :=
  match ev with
  | Step stepIndex => stepIndex <? steps_length
  | _ => true
  end.

(* ================================================================== *)
(** * Statements about the matcher as a whole *)
(* ================================================================== *)

(** The request resolved to an [ok] response whose body parsed to [body]. *)
Definition request_succeeds (fetch : request -> completion response)
    (req : request) (body : value) : Prop :=
  exists r, fetch req = Normal r /\ ok r = true /\ json r = Normal body.

(** [generateSuggestions] before its final [slice(0, 3)]. *)
Definition all_suggestions (analysis : QueryAnalysis) : list jsstring :=
  (if List.length (keywords analysis) <? 3 then [more_specific] else []) ++
  (if 0 <? List.length (synonyms analysis)
   then [also_try ++ JsString.join (lit ", ") (firstn 3 (synonyms analysis))]
   else []) ++
  (match intent_suggestion (intent analysis) with Some s => [s] | None => [] end).

(** The five intents the [switch] has a case for. *)
Definition known_intent (intent : jsstring) : bool :=
  existsb (JsString.eqb intent)
    (map lit ["location"; "explanation"; "responsibility"; "timing"; "process"]%string).

(** The calls one firing of the timer makes, for the closure it holds. *)
Definition firing_calls {clause} (closure : jsstring * list clause)
  : list (engine_call clause) :=
  CallAnalyzeQuery (fst closure) ::
  (if 0 <? List.length (snd closure)
   then [CallSemanticSearch (fst closure) (snd closure)] else []).

(** A trace made of whole firings, one after the other. *)
Inductive firings {clause} : list (engine_call clause) -> Prop :=
| firings_nil : firings []
| firings_app : forall trace closure,
    firings trace -> firings (trace ++ firing_calls closure).

Unset Implicit Arguments.

(* ================================================================== *)
(** * Facts about strings *)
(* ================================================================== *)

Lemma eqb_eq (a b : jsstring) : JsString.eqb a b = true <-> a = b.
Proof.
  revert b; induction a as [|x a IH]; intros [|y b]; simpl;
    try (split; [discriminate | congruence]); try tauto.
  rewrite andb_true_iff, N.eqb_eq, IH.
  split; [intros [-> ->]; reflexivity | intros H; inversion H; auto].
Qed.

Lemma eqb_refl (a : jsstring) : JsString.eqb a a = true.
Proof. apply eqb_eq; reflexivity. Qed.

Lemma starts_with_app (p s : jsstring) : JsString.starts_with p (p ++ s) = true.
Proof.
  induction p as [|x p IH]; simpl; [reflexivity|].
  rewrite N.eqb_refl, IH; reflexivity.
Qed.

Lemma split_on_nonempty sep (s : jsstring) : JsString.split_on sep s <> [].
Proof.
  destruct s as [|c rest]; simpl; [discriminate|].
  destruct (N.eqb c sep); [discriminate|].
  destruct (JsString.split_on sep rest); discriminate.
Qed.

(** [s.split(sep).join(sep) === s] *)
Lemma join_split_on sep (s : jsstring) :
  JsString.join [sep] (JsString.split_on sep s) = s.
Proof.
  induction s as [|c rest IH]; [reflexivity|].
  simpl. destruct (N.eqb c sep) eqn:E.
  - apply N.eqb_eq in E; subst c.
    pose proof (split_on_nonempty sep rest) as NE.
    destruct (JsString.split_on sep rest) as [|piece pieces]; [congruence|].
    simpl in *. rewrite IH. reflexivity.
  - destruct (JsString.split_on sep rest) as [|piece pieces]; simpl in *.
    + subst rest. reflexivity.
    + destruct pieces; simpl in *; subst rest; reflexivity.
Qed.

Lemma split_on_no_sep sep (s : jsstring) :
  Forall (fun piece => ~ In sep piece) (JsString.split_on sep s).
Proof.
  induction s as [|c rest IH]; simpl.
  - constructor; [intros []|constructor].
  - destruct (N.eqb c sep) eqn:E.
    + constructor; [intros []|exact IH].
    + apply N.eqb_neq in E.
      destruct (JsString.split_on sep rest) as [|piece pieces].
      * constructor; [|constructor]. intros [H|[]]. congruence.
      * inversion IH as [|? ? Hp Hps]; subst.
        constructor; [|exact Hps]. intros [H|H]; [congruence|tauto].
Qed.

(** A part of a joined array stands between two separators or ends. *)
Lemma join_middle sep (before after : list jsstring) (k : jsstring) :
  exists pre post,
    JsString.join [sep] (before ++ k :: after) = pre ++ k ++ post /\
    (pre = [] \/ exists p, pre = p ++ [sep]) /\
    (post = [] \/ exists p, post = sep :: p).
Proof.
  assert (Tail : exists post,
             JsString.join [sep] (k :: after) = k ++ post /\
             (post = [] \/ exists p, post = sep :: p)).
  { destruct after as [|a after'].
    - exists []. simpl. rewrite app_nil_r. auto.
    - exists (sep :: JsString.join [sep] (a :: after')). split; [reflexivity|].
      right; eauto. }
  destruct Tail as (post & Hjoin & Hpost).
  induction before as [|b before IH].
  - exists [], post. simpl app at 1. rewrite Hjoin. auto.
  - destruct IH as (pre & post' & E & Hpre & Hpost').
    exists (b ++ sep :: pre), post'. split; [|split; [|exact Hpost']].
    + change ((b :: before) ++ k :: after) with (b :: (before ++ k :: after)).
      destruct (before ++ k :: after) as [|x l] eqn:El.
      * destruct before; discriminate.
      * cbn [JsString.join]. cbn [JsString.join] in E. rewrite E.
        rewrite <- !app_assoc. reflexivity.
    + right. destruct Hpre as [->|(p & ->)].
      * exists b. reflexivity.
      * exists (b ++ sep :: p). rewrite <- app_assoc. reflexivity.
Qed.

(** Every piece of [s.split(sep)] is a token of [s] delimited by [sep]. *)
Lemma split_on_delimited sep (s k : jsstring) :
  In k (JsString.split_on sep s) -> delimited_token sep k s.
Proof.
  intros Hin. split.
  - pose proof (split_on_no_sep sep s) as F.
    rewrite Forall_forall in F. exact (F k Hin).
  - apply in_split in Hin. destruct Hin as (before & after & E).
    destruct (join_middle sep before after k) as (pre & post & J & Hpre & Hpost).
    exists pre, post. rewrite <- J, <- E, join_split_on. auto.
Qed.

Lemma split_on_spaces (s : jsstring) :
  spaces_only s = true ->
  Forall (fun piece => piece = []) (JsString.split_on JsString.space s).
Proof.
  unfold spaces_only.
  induction s as [|c rest IH]; cbn [forallb JsString.split_on]; intros H.
  - repeat constructor.
  - apply andb_true_iff in H. destruct H as [Hc Hrest].
    apply N.eqb_eq in Hc. subst c. rewrite N.eqb_refl. constructor; auto.
Qed.

Lemma fallback_keywords_spaces (s : jsstring) :
  spaces_only s = true -> fallback_keywords s = [].
Proof.
  intros H. apply split_on_spaces in H. unfold fallback_keywords.
  induction H as [|piece pieces Hp _ IH]; simpl; [reflexivity|].
  subst piece. simpl. exact IH.
Qed.

Lemma fallback_keywords_spec (q k : jsstring) :
  In k (fallback_keywords q) ->
  3 <= JsString.length k /\ In k (JsString.split_on JsString.space q).
Proof.
  unfold fallback_keywords. rewrite filter_In. intros [Hin Hlen].
  apply Nat.ltb_lt in Hlen. split; [lia|exact Hin].
Qed.

(* ================================================================== *)
(** * The degraded path of [analyzeQuery] and [semanticSearch] *)
(* ================================================================== *)

Ltac run_js :=
  unfold try_catch, bind, await, throw, ret, console_error; cbn beta iota.

Lemma analyzeQuery_degraded baseUrl fetch (query : jsstring) (c : console) :
  request_fails fetch (analyze_query_request baseUrl query) ->
  exists e,
    analyzeQuery baseUrl fetch query c =
    (Normal (analysis_object (fallback_analysis query)),
     c ++ [(lit "Error analyzing query:", e)]).
Proof.
  unfold request_fails, analyzeQuery. run_js.
  destruct (fetch (analyze_query_request baseUrl query)) as [r|e].
  - intros [Hok|[e He]].
    + rewrite Hok. cbn. eauto.
    + destruct (ok r); cbn; [rewrite He|]; eauto.
  - intros _. eauto.
Qed.

Lemma semanticSearch_degraded {clause} (JSON_stringify : list clause -> completion jsstring)
    baseUrl fetch (query : jsstring) (clauses : list clause) (c : console) :
  search_fails JSON_stringify baseUrl fetch query clauses ->
  exists e,
    semanticSearch JSON_stringify baseUrl fetch query clauses c =
    (Normal (fallback_search query),
     c ++ [(lit "Error performing semantic search:", e)]).
Proof.
  unfold search_fails, request_fails, semanticSearch. run_js.
  destruct (JSON_stringify clauses) as [stringified|e]; [|eauto].
  destruct (fetch (semantic_search_request baseUrl query stringified)) as [r|e].
  - intros [Hok|[e He]].
    + rewrite Hok. cbn. eauto.
    + destruct (ok r); cbn; [rewrite He|]; eauto.
  - intros _. eauto.
Qed.

(** C1. When the backend request of [semanticSearch] fails (the response
    is not ok, or [fetch], the parse or the serialisation throws), the call
    still returns: an object whose [matches] and [segments] are empty
    arrays and whose [query_analysis] echoes the query. *)
Theorem semanticSearch_failure_returns_empty {clause}
    (JSON_stringify : list clause -> completion jsstring)
    baseUrl fetch (query : jsstring) (clauses : list clause) (c : console) :
  search_fails JSON_stringify baseUrl fetch query clauses ->
  returns_with (empty_search_result query)
               (semanticSearch JSON_stringify baseUrl fetch query clauses) c.
Proof.
  intros Hfail.
  destruct (semanticSearch_degraded JSON_stringify baseUrl fetch query clauses c Hfail)
    as [e E].
  eexists _, _. split; [exact E|].
  unfold empty_search_result, fallback_search.
  eexists _, _. repeat split; reflexivity.
Qed.

Lemma semanticSearch_failure_returns_empty_witness :
  search_fails (fun _ : list nat => Normal (lit "[]")) None offline (lit "custody") [] /\
  returns_with (empty_search_result (lit "custody"))
               (semanticSearch (fun _ : list nat => Normal (lit "[]")) None offline
                               (lit "custody") []) [].
Proof.
  split.
  - exact I.
  - apply (semanticSearch_failure_returns_empty
             (fun _ : list nat => Normal (lit "[]")) None offline (lit "custody") [] []).
    exact I.
Defined.

Lemma map_VString_inj (l l' : list jsstring) :
  map VString l = map VString l' -> l = l'.
Proof.
  revert l'.
  induction l as [|x l IH]; intros [|y l'] H; try discriminate; [reflexivity|].
  cbn in H. injection H as -> H. f_equal. auto.
Qed.

Lemma analysis_object_keywords (a b : QueryAnalysis) :
  analysis_object a = analysis_object b -> keywords a = keywords b.
Proof.
  unfold analysis_object, strings. intros H. injection H as _ H _ _ _ _.
  apply map_VString_inj. exact H.
Qed.

Lemma short_runs_from_split (run : nat) (s : jsstring) :
  run <= 2 ->
  short_runs_from run s = true <->
  match JsString.split_on JsString.space s with
  | [] => False
  | first :: rest =>
      run + List.length first <= 2 /\
      Forall (fun piece => List.length piece <= 2) rest
  end.
Proof.
  revert run. induction s as [|c s IH]; intros run Hrun;
    cbn [short_runs_from JsString.split_on].
  - cbn. split; [intros _; split; [lia|constructor]|reflexivity].
  - destruct (N.eqb c JsString.space).
    + rewrite (IH 0) by lia. cbn [List.length].
      pose proof (split_on_nonempty JsString.space s) as NE.
      destruct (JsString.split_on JsString.space s) as [|first rest]; [congruence|].
      split.
      * intros [H1 H2]. split; [lia|]. constructor; [cbn in H1; lia|exact H2].
      * intros [_ H]. inversion H; subst. split; [cbn; lia|assumption].
    + destruct (S run <=? 2) eqn:E; cbn [andb].
      * apply Nat.leb_le in E. rewrite (IH (S run)) by lia.
        pose proof (split_on_nonempty JsString.space s) as NE.
        destruct (JsString.split_on JsString.space s) as [|first rest]; [congruence|].
        cbn [List.length]. split; intros [H1 H2]; (split; [lia|exact H2]).
      * apply Nat.leb_gt in E.
        pose proof (split_on_nonempty JsString.space s) as NE.
        destruct (JsString.split_on JsString.space s) as [|first rest]; [congruence|].
        cbn [List.length]. split; [discriminate|]. intros [H _]. lia.
Qed.

Lemma no_long_piece (pieces : list jsstring) :
  filter (fun word => 2 <? JsString.length word) pieces = [] <->
  Forall (fun piece => List.length piece <= 2) pieces.
Proof.
  unfold JsString.length.
  induction pieces as [|p rest IH]; cbn [filter]; [split; auto|].
  destruct (2 <? List.length p) eqn:E.
  - apply Nat.ltb_lt in E. split; [discriminate|].
    intros H. inversion H; subst. lia.
  - apply Nat.ltb_ge in E. rewrite IH. split.
    + intros H. constructor; assumption.
    + intros H. inversion H; subst. assumption.
Qed.

(** The fallback finds no keyword exactly in the queries that have no
    three consecutive code units other than U+0020. *)
Lemma fallback_keywords_nil_iff (query : jsstring) :
  fallback_keywords query = [] <-> short_runs query = true.
Proof.
  unfold fallback_keywords, short_runs.
  rewrite no_long_piece, (short_runs_from_split 0 query) by lia.
  pose proof (split_on_nonempty JsString.space query) as NE.
  destruct (JsString.split_on JsString.space query) as [|first rest]; [congruence|].
  cbn [plus]. split.
  - intros H. inversion H; subst. auto.
  - intros [H1 H2]. constructor; assumption.
Qed.

(** U+0020 alone never makes a run. *)
Lemma spaces_only_short_runs (query : jsstring) :
  spaces_only query = true -> short_runs query = true.
Proof.
  intros H. apply fallback_keywords_nil_iff, fallback_keywords_spaces. exact H.
Qed.

(** C2, as the code has it.  For a query that is empty or made of
    whitespace only, [analyzeQuery] throws nothing when the backend
    request fails and returns an analysis with no synonym and the intent
    'general'; that analysis has no keyword either if and only if the
    query has no three consecutive characters other than the space
    U+0020: so for the empty query, for spaces only, and for tabs or line
    breaks that come at most two in a row between spaces. *)
Theorem analyzeQuery_whitespace_neutral baseUrl fetch (query : jsstring) (c : console) :
  whitespace_only query = true ->
  request_fails fetch (analyze_query_request baseUrl query) ->
  returns_with general_analysis (analyzeQuery baseUrl fetch query) c /\
  (returns_with neutral_analysis (analyzeQuery baseUrl fetch query) c <->
   short_runs query = true).
Proof.
  intros _ Hfail.
  destruct (analyzeQuery_degraded baseUrl fetch query c Hfail) as [e E].
  split; [|split].
  - eexists _, _. split; [exact E|].
    exists (fallback_analysis query). auto.
  - intros (v & c' & E' & a & Ea & Hk & _).
    rewrite E in E'. injection E' as <- _.
    apply analysis_object_keywords in Ea. rewrite Hk in Ea.
    apply fallback_keywords_nil_iff. exact Ea.
  - intros Hshort. apply fallback_keywords_nil_iff in Hshort.
    eexists _, _. split; [exact E|].
    exists (fallback_analysis query). cbn. auto.
Qed.

Lemma analyzeQuery_whitespace_neutral_witness :
  whitespace_only [9; 9; 32; 13; 10; 32; 32; 9]%N = true /\
  request_fails offline
    (analyze_query_request None [9; 9; 32; 13; 10; 32; 32; 9]%N) /\
  short_runs [9; 9; 32; 13; 10; 32; 32; 9]%N = true /\
  returns_with neutral_analysis
    (analyzeQuery None offline [9; 9; 32; 13; 10; 32; 32; 9]%N) [].
Proof.
  split; [reflexivity|]. split; [exact I|]. split; [reflexivity|].
  apply (proj2 (analyzeQuery_whitespace_neutral None offline
                  [9; 9; 32; 13; 10; 32; 32; 9]%N [] eq_refl I)).
  reflexivity.
Defined.

(** A query of three tabs is whitespace only, yet the degraded analysis
    keeps it as a keyword. *)
Lemma analyzeQuery_tabs_not_neutral :
  whitespace_only [9; 9; 9]%N = true /\
  request_fails offline (analyze_query_request None [9; 9; 9]%N) /\
  ~ returns_with neutral_analysis (analyzeQuery None offline [9; 9; 9]%N) [].
Proof.
  split; [reflexivity|]. split; [exact I|].
  intros (v & c' & E & a & Ea & Hk & _).
  destruct (analyzeQuery_degraded None offline [9; 9; 9]%N [] I) as [e E'].
  rewrite E' in E. injection E as <- _.
  apply analysis_object_keywords in Ea. rewrite Hk in Ea.
  vm_compute in Ea. discriminate Ea.
Qed.

(** C3, as the code has it.  For a non-empty query, what [analyzeQuery]
    returns when the backend request fails is a non-null analysis whose
    keywords have length 3 or more and each stand in the query between
    space characters (U+0020) or its ends, unchanged. *)
Theorem analyzeQuery_keywords_space_tokens baseUrl fetch (query : jsstring) (c : console) :
  query <> [] ->
  request_fails fetch (analyze_query_request baseUrl query) ->
  returns_with (keywords_are_tokens space_token query)
               (analyzeQuery baseUrl fetch query) c.
Proof.
  intros _ Hfail.
  destruct (analyzeQuery_degraded baseUrl fetch query c Hfail) as [e E].
  eexists _, _. split; [exact E|].
  split; [discriminate|]. split; [discriminate|].
  exists (fallback_analysis query). split; [reflexivity|].
  intros k Hk. cbn in Hk. apply fallback_keywords_spec in Hk.
  destruct Hk as [Hlen Hin]. split; [exact Hlen|].
  apply split_on_delimited. exact Hin.
Qed.

Lemma analyzeQuery_keywords_space_tokens_witness :
  lit "Who has custody?" <> [] /\
  request_fails offline (analyze_query_request None (lit "Who has custody?")) /\
  returns_with (keywords_are_tokens space_token (lit "Who has custody?"))
               (analyzeQuery None offline (lit "Who has custody?")) [].
Proof.
  split; [discriminate|]. split; [exact I|].
  apply (analyzeQuery_keywords_space_tokens None offline (lit "Who has custody?") []);
    [discriminate | exact I].
Defined.

(** In "foo<TAB>bar" whitespace separates the tokens "foo" and "bar",
    yet the degraded analysis has the one keyword "foo<TAB>bar". *)
Lemma analyzeQuery_keywords_not_ws_tokens :
  lit "foo" ++ [9%N] ++ lit "bar" <> [] /\
  request_fails offline
    (analyze_query_request None (lit "foo" ++ [9%N] ++ lit "bar")) /\
  ~ returns_with
      (keywords_are_tokens ws_token (lit "foo" ++ [9%N] ++ lit "bar"))
      (analyzeQuery None offline (lit "foo" ++ [9%N] ++ lit "bar")) [].
Proof.
  split; [discriminate|]. split; [exact I|].
  intros (v & c' & E & _ & _ & a & Ea & Hk).
  destruct (analyzeQuery_degraded None offline (lit "foo" ++ [9%N] ++ lit "bar") [] I)
    as [e E'].
  rewrite E' in E. injection E as <- _.
  apply analysis_object_keywords in Ea.
  destruct (Hk (lit "foo" ++ [9%N] ++ lit "bar")) as [_ Htok].
  - rewrite <- Ea. vm_compute. left. reflexivity.
  - vm_compute in Htok. destruct Htok as [H|[H|[]]]; discriminate H.
Qed.

(* ================================================================== *)
(** * generateSuggestions *)
(* ================================================================== *)

(** The array before the final [slice(0, 3)]: one optional entry per rule. *)
Lemma generateSuggestions_unfold (analysis : QueryAnalysis) :
  generateSuggestions analysis =
  firstn 3
    ((if List.length (keywords analysis) <? 3 then [more_specific] else []) ++
     (if 0 <? List.length (synonyms analysis) then [synonym_suggestion analysis] else []) ++
     (match intent_suggestion (intent analysis) with Some s => [s] | None => [] end)).
Proof.
  unfold generateSuggestions, push, slice0, synonym_suggestion.
  destruct (List.length (keywords analysis) <? 3);
    destruct (0 <? List.length (synonyms analysis));
    destruct (intent_suggestion (intent analysis)); reflexivity.
Qed.

(** Every intent suggestion opens with "Try ", and is not the keyword one. *)
Lemma intent_suggestion_shape (intent s : jsstring) :
  intent_suggestion intent = Some s ->
  JsString.starts_with also_try s = false /\ s <> more_specific.
Proof.
  unfold intent_suggestion.
  repeat match goal with
         | |- context [if ?b then _ else _] => destruct b
         end;
    intros H; try discriminate H; injection H as <-;
    (split; [reflexivity | discriminate]).
Qed.

Lemma more_specific_not_also_try : JsString.starts_with also_try more_specific = false.
Proof. reflexivity. Qed.

Lemma synonym_suggestion_not_more_specific (analysis : QueryAnalysis) :
  synonym_suggestion analysis <> more_specific.
Proof. unfold synonym_suggestion. intros H. cbn in H. discriminate H. Qed.

Lemma nonempty_length {A} (l : list A) : (0 <? List.length l) = true <-> l <> [].
Proof.
  destruct l; cbn; split; try congruence; try discriminate; reflexivity.
Qed.

(** C4. [generateSuggestions] returns at most 3 suggestions, whatever the
    keywords, the synonyms and the intent of the analysis. *)
Theorem generateSuggestions_at_most_3 (analysis : QueryAnalysis) :
  List.length (generateSuggestions analysis) <= 3.
Proof.
  unfold generateSuggestions, slice0. apply firstn_le_length.
Qed.

(** C5. The output of [generateSuggestions] holds 'Try using more
    specific keywords' if and only if the analysis has fewer than 3
    keywords. *)
Theorem generateSuggestions_more_specific_iff (analysis : QueryAnalysis) :
  In more_specific (generateSuggestions analysis) <->
  List.length (keywords analysis) < 3.
Proof.
  rewrite generateSuggestions_unfold.
  pose proof (synonym_suggestion_not_more_specific analysis) as Hsyn.
  pose proof (intent_suggestion_shape (intent analysis)) as Hint.
  destruct (List.length (keywords analysis) <? 3) eqn:Hk.
  - apply Nat.ltb_lt in Hk. split; [intros _; exact Hk|intros _].
    cbn. left. reflexivity.
  - apply Nat.ltb_ge in Hk. split; [|lia]. intros Hin. exfalso.
    destruct (0 <? List.length (synonyms analysis));
      destruct (intent_suggestion (intent analysis)) as [s|];
      cbn [app firstn In] in Hin; try destruct (Hint s eq_refl) as [_ Hs]; intuition congruence.
Qed.

(** C6. With the intent 'location' the output of [generateSuggestions]
    holds 'Try searching for specific clause titles or section numbers',
    whatever the keywords and the synonyms. *)
Theorem generateSuggestions_location (analysis : QueryAnalysis) :
  intent analysis = lit "location" ->
  In location_suggestion (generateSuggestions analysis).
Proof.
  intros Hi. rewrite generateSuggestions_unfold, Hi.
  change (intent_suggestion (lit "location")) with (Some location_suggestion).
  destruct (List.length (keywords analysis) <? 3);
    destruct (0 <? List.length (synonyms analysis)); cbn; auto.
Qed.

Lemma generateSuggestions_location_witness :
  intent (mkQueryAnalysis (lit "where") [lit "where"] [lit "place"] []
                          (lit "location") []) = lit "location" /\
  In location_suggestion
     (generateSuggestions
        (mkQueryAnalysis (lit "where") [lit "where"] [lit "place"] []
                         (lit "location") [])).
Proof.
  split; [reflexivity|].
  apply (generateSuggestions_location
           (mkQueryAnalysis (lit "where") [lit "where"] [lit "place"] []
                            (lit "location") [])).
  reflexivity.
Defined.

(** C9. The output of [generateSuggestions] holds a suggestion that
    opens with 'Also try: ' if and only if the analysis has a synonym, and
    any such suggestion is 'Also try: ' followed by the first 3 synonyms
    (fewer if there are fewer), in their order, joined by ', '. *)
Theorem generateSuggestions_synonyms (analysis : QueryAnalysis) :
  ((exists s, In s (generateSuggestions analysis) /\
              JsString.starts_with also_try s = true) <->
   synonyms analysis <> []) /\
  (forall s, In s (generateSuggestions analysis) ->
             JsString.starts_with also_try s = true ->
             s = also_try ++ JsString.join (lit ", ") (firstn 3 (synonyms analysis))).
Proof.
  rewrite generateSuggestions_unfold.
  pose proof (intent_suggestion_shape (intent analysis)) as Hint.
  pose proof more_specific_not_also_try as Hms.
  assert (Hst : JsString.starts_with also_try (synonym_suggestion analysis) = true)
    by apply starts_with_app.
  pose proof (nonempty_length (synonyms analysis)) as Hne.
  destruct (0 <? List.length (synonyms analysis)) eqn:Hs.
  - split.
    + split; [intros _; apply Hne; reflexivity|intros _].
      exists (synonym_suggestion analysis). split; [|exact Hst].
      destruct (List.length (keywords analysis) <? 3);
        destruct (intent_suggestion (intent analysis)); cbn; auto.
    + intros s Hin Hpre. fold (synonym_suggestion analysis).
      destruct (List.length (keywords analysis) <? 3);
        destruct (intent_suggestion (intent analysis)) as [i|];
        cbn [app firstn In] in Hin; try destruct (Hint i eq_refl) as [Hi _];
        intuition (subst; congruence).
  - assert (Hnone : forall s,
               In s (firstn 3
                 ((if List.length (keywords analysis) <? 3 then [more_specific] else []) ++
                  [] ++
                  match intent_suggestion (intent analysis) with
                  | Some i => [i] | None => [] end)) ->
               JsString.starts_with also_try s = true -> False).
    { intros s Hin Hpre.
      destruct (List.length (keywords analysis) <? 3);
        destruct (intent_suggestion (intent analysis)) as [i|];
        cbn [app firstn In] in Hin; try destruct (Hint i eq_refl) as [Hi _];
        intuition (subst; congruence). }
    split.
    + split.
      * intros (s & Hin & Hpre). destruct (Hnone s Hin Hpre).
      * intros Hsyn. apply Hne in Hsyn. discriminate Hsyn.
    + intros s Hin Hpre. destruct (Hnone s Hin Hpre).
Qed.

Lemma generateSuggestions_synonyms_witness :
  In (lit "Also try: care, guardianship, supervision")
     (generateSuggestions
        (mkQueryAnalysis (lit "custody") [lit "custody"]
           [lit "care"; lit "guardianship"; lit "supervision"; lit "wardship"]
           [] (lit "general") [])) /\
  lit "Also try: care, guardianship, supervision" =
  also_try ++ JsString.join (lit ", ")
    (firstn 3 [lit "care"; lit "guardianship"; lit "supervision"; lit "wardship"]).
Proof.
  split; [cbn; auto|].
  apply (proj2 (generateSuggestions_synonyms
           (mkQueryAnalysis (lit "custody") [lit "custody"]
              [lit "care"; lit "guardianship"; lit "supervision"; lit "wardship"]
              [] (lit "general") []))).
  - cbn. auto.
  - reflexivity.
Defined.

(* ================================================================== *)
(** * isAvailable *)
(* ================================================================== *)

Lemma strict_equals_string_true (v : value) (s : jsstring) :
  strict_equals_string v s = true <-> v = VString s.
Proof.
  destruct v; cbn; try (split; [discriminate|intros H; discriminate H]).
  rewrite eqb_eq. split; [intros ->; reflexivity|intros H; injection H; auto].
Qed.

Lemma semantic_matcher_member (props : list (jsstring * value)) :
  get_member props (lit "semantic_matcher") = VString (lit "available") <->
  own_property props (lit "semantic_matcher") = Some (VString (lit "available")).
Proof.
  unfold get_member.
  destruct (own_property props (lit "semantic_matcher")) as [v|].
  - split; [intros ->; reflexivity|intros H; injection H; auto].
  - change (in_object_prototype (lit "semantic_matcher")) with false.
    split; discriminate.
Qed.

(** C7. [isAvailable] always returns a boolean and throws nothing: true
    exactly when the health request is answered, the body parses to an
    object, and the [semantic_matcher] field of that object is the string
    'available'; false in every other case. *)
Theorem isAvailable_spec baseUrl fetch (c : console) :
  exists b c',
    isAvailable baseUrl fetch c = (Normal b, c') /\
    (b = true <->
     exists r props,
       fetch (health_request baseUrl) = Normal r /\
       json r = Normal (VObject props) /\
       own_property props (lit "semantic_matcher") = Some (VString (lit "available"))).
Proof.
  unfold isAvailable. run_js.
  destruct (fetch (health_request baseUrl)) as [r|e] eqn:Hf.
  - destruct (json r) as [data|e] eqn:Hj.
    + destruct data as [| |b|x|s|elems|props|name]; cbn;
        try (eexists _, _; split; [reflexivity|];
             split; [discriminate|];
             intros (r' & props' & Hr & Hd & _);
             injection Hr as <-; rewrite Hj in Hd; discriminate Hd).
      eexists _, _. split; [reflexivity|].
      rewrite strict_equals_string_true, semantic_matcher_member. split.
      * intros H. exists r, props. auto.
      * intros (r' & props' & Hr & Hd & Hp).
        injection Hr as <-. rewrite Hj in Hd. injection Hd as <-. exact Hp.
    + eexists _, _. split; [reflexivity|]. split; [discriminate|].
      intros (r' & props' & Hr & Hd & _).
      injection Hr as <-. rewrite Hj in Hd. discriminate Hd.
  - eexists _, _. split; [reflexivity|]. split; [discriminate|].
    intros (r' & props' & Hr & _). discriminate Hr.
Qed.

(* ================================================================== *)
(** * getConfidenceStyling *)
(* ================================================================== *)

(** Each of the three tiers gets its own entry of [styles], and the three
    differ. *)
Lemma getConfidenceStyling_tiers :
  getConfidenceStyling (Some (lit "high")) = get_member styles (lit "high") /\
  getConfidenceStyling (Some (lit "medium")) = get_member styles (lit "medium") /\
  getConfidenceStyling (Some (lit "low")) = get_member styles (lit "low") /\
  get_member styles (lit "high") <> get_member styles (lit "medium") /\
  get_member styles (lit "high") <> get_member styles (lit "low") /\
  get_member styles (lit "medium") <> get_member styles (lit "low").
Proof. repeat split; try reflexivity; discriminate. Qed.

(** A key that is neither a tier nor a member of [Object.prototype]
    falls back to the low-confidence styling; [undefined] is such a key. *)
Lemma getConfidenceStyling_fallback (confidence : option jsstring) :
  own_property styles (template confidence) = None ->
  in_object_prototype (template confidence) = false ->
  getConfidenceStyling confidence = get_member styles (lit "low").
Proof.
  unfold getConfidenceStyling, get_member at 1 2. intros -> ->. reflexivity.
Qed.

Lemma getConfidenceStyling_undefined :
  getConfidenceStyling None = get_member styles (lit "low").
Proof. reflexivity. Qed.

(** The call never yields [undefined]. *)
Lemma getConfidenceStyling_defined (confidence : option jsstring) :
  getConfidenceStyling confidence <> VUndefined.
Proof.
  unfold getConfidenceStyling.
  destruct (truthy (get_member styles (template confidence))) eqn:T.
  - intros E. rewrite E in T. discriminate T.
  - discriminate.
Qed.

(** C8, where the code departs from it.  For the string 'toString',
    which is none of the three tiers, [styles[confidence]] finds the
    method every object inherits; it is truthy, so it is returned in
    place of the low-confidence styling. *)
Theorem getConfidenceStyling_inherited_member :
  getConfidenceStyling (Some (lit "toString")) = VBuiltin (lit "toString") /\
  getConfidenceStyling (Some (lit "toString")) <> get_member styles (lit "low").
Proof. split; [reflexivity|discriminate]. Qed.

(* ================================================================== *)
(** * ClauseLocationStep *)
(* ================================================================== *)

Section EffectGuard.

Variable clause : Type.
Variable JSON_stringify : list clause -> completion jsstring.
Variable baseUrl : option jsstring.
Variable fetch : request -> completion response.

Lemma analysis_effect_guard (query : jsstring) (cls : list clause) closure :
  analysis_effect query cls = Some closure ->
  closure = (query, cls) /\ 3 < JsString.length query.
Proof.
  unfold analysis_effect.
  destruct (truthy (VString query)); cbn [andb]; [|discriminate].
  destruct (3 <? JsString.length query) eqn:L; [|discriminate].
  apply Nat.ltb_lt in L. intros H. injection H as <-. auto.
Qed.

Lemma analyzeQueryDebounced_calls closure (c : console) made c' :
  analyzeQueryDebounced JSON_stringify baseUrl fetch closure c = (made, c') ->
  forall call, In call made -> call_query call = fst closure.
Proof.
  destruct closure as [query cls]. unfold analyzeQueryDebounced.
  destruct (analyzeQuery baseUrl fetch query c) as [[analysis|e] c1].
  - destruct (0 <? List.length cls).
    + destruct (semanticSearch JSON_stringify baseUrl fetch query cls c1)
        as [[results|e] c2];
        intros H; injection H as <- _;
        intros call [<-|[<-|[]]]; reflexivity.
    + intros H; injection H as <- _. intros call [<-|[]]; reflexivity.
  - intros H; injection H as <- _. intros call [<-|[]]; reflexivity.
Qed.

(** What every reachable state satisfies: the calls made and the armed
    closure all carry a query longer than 3. *)
Definition guarded (s : component clause) : Prop :=
  (forall call, In call (calls s) -> 3 < JsString.length (call_query call)) /\
  (forall closure, timer s = Some closure -> 3 < JsString.length (fst closure)).

Lemma guarded_mount (query : jsstring) (cls : list clause) :
  guarded (mount query cls).
Proof.
  split; cbn.
  - intros call [].
  - intros closure H. apply analysis_effect_guard in H.
    destruct H as [-> L]. exact L.
Qed.

Lemma guarded_step (s s' : component clause) :
  step JSON_stringify baseUrl fetch s s' -> guarded s -> guarded s'.
Proof.
  intros Hstep [Hcalls Htimer].
  destruct Hstep as [s query cls | s closure made c' Ht Hrun | s]; split; cbn.
  - exact Hcalls.
  - intros closure H. apply analysis_effect_guard in H.
    destruct H as [-> L]. exact L.
  - intros call Hin. apply in_app_or in Hin. destruct Hin as [Hin|Hin].
    + apply Hcalls; exact Hin.
    + rewrite (analyzeQueryDebounced_calls closure (output s) made c' Hrun call Hin).
      apply Htimer; exact Ht.
  - discriminate.
  - exact Hcalls.
  - discriminate.
Qed.

Lemma reachable_guarded (query : jsstring) (cls : list clause) (s : component clause) :
  reachable JSON_stringify baseUrl fetch query cls s -> guarded s.
Proof.
  induction 1 as [|s s' _ IH Hstep].
  - apply guarded_mount.
  - exact (guarded_step s s' Hstep IH).
Qed.

End EffectGuard.

(** C10. Whatever the component goes through after it mounts (renders
    with a new query or new clauses, the timer firing, unmounting), every
    [analyzeQuery] and [semanticSearch] call it has made carries a query
    of more than 3 code units: none is made for a query of length 3 or
    less, the empty query included. *)
Theorem analysis_calls_have_long_query (clause : Type)
    (JSON_stringify : list clause -> completion jsstring)
    (baseUrl : option jsstring) (fetch : request -> completion response)
    (query : jsstring) (cls : list clause) (s : component clause)
    (call : engine_call clause) :
  reachable JSON_stringify baseUrl fetch query cls s ->
  In call (calls s) ->
  3 < JsString.length (call_query call).
Proof.
  intros Hreach Hin.
  destruct (reachable_guarded clause JSON_stringify baseUrl fetch query cls s Hreach)
    as [Hcalls _].
  exact (Hcalls call Hin).
Qed.

Lemma analysis_calls_have_long_query_witness :
  let stringify := fun _ : list nat => Normal (lit "[]") in
  let s := mkComponent (lit "custody") [] None
             [@CallAnalyzeQuery nat (lit "custody")]
             [(lit "Error analyzing query:", HostError (lit "Failed to fetch"))] in
  reachable stringify None offline (lit "custody") [] s /\
  In (CallAnalyzeQuery (lit "custody")) (calls s) /\
  3 < JsString.length (call_query (@CallAnalyzeQuery nat (lit "custody"))).
Proof.
  intros stringify s.
  assert (R : reachable stringify None offline (lit "custody") [] s).
  { eapply reachable_step.
    - apply reachable_mount.
    - eapply (step_timeout stringify None offline (mount (lit "custody") []));
        reflexivity. }
  assert (M : In (CallAnalyzeQuery (lit "custody")) (calls s))
    by (left; reflexivity).
  split; [exact R|]. split; [exact M|].
  exact (analysis_calls_have_long_query nat stringify None offline
           (lit "custody") [] s (CallAnalyzeQuery (lit "custody")) R M).
Defined.

(* ================================================================== *)
(** * The matcher beyond its degraded path *)
(* ================================================================== *)

Lemma analyzeQuery_outcome baseUrl fetch (query : jsstring) (c : console) :
  (exists body, request_succeeds fetch (analyze_query_request baseUrl query) body /\
                analyzeQuery baseUrl fetch query c = (Normal body, c)) \/
  (request_fails fetch (analyze_query_request baseUrl query) /\
   exists e, analyzeQuery baseUrl fetch query c =
             (Normal (analysis_object (fallback_analysis query)),
              c ++ [(lit "Error analyzing query:", e)])).
Proof.
  unfold request_succeeds, request_fails, analyzeQuery. run_js.
  destruct (fetch (analyze_query_request baseUrl query)) as [r|e]; [|right; eauto].
  destruct (ok r) eqn:Hok; cbn; [|right; eauto].
  destruct (json r) as [body|e] eqn:Hj; [|right; eauto].
  left. exists body. split; [exists r; auto|reflexivity].
Qed.

(** X1. [analyzeQuery] never throws, whatever the host does.  Either the
    request succeeded, and it returns the parsed body as it came, with
    nothing logged; or the request failed, and it returns the fallback
    analysis after logging exactly one error. *)
Theorem analyzeQuery_never_throws baseUrl fetch (query : jsstring) (c : console) :
  exists v c',
    analyzeQuery baseUrl fetch query c = (Normal v, c') /\
    ((request_succeeds fetch (analyze_query_request baseUrl query) v /\ c' = c) \/
     (request_fails fetch (analyze_query_request baseUrl query) /\
      v = analysis_object (fallback_analysis query) /\
      exists e, c' = c ++ [(lit "Error analyzing query:", e)])).
Proof.
  destruct (analyzeQuery_outcome baseUrl fetch query c)
    as [(body & Hs & E)|(Hf & e & E)].
  - exists body, c. split; [exact E|]. left. auto.
  - eexists _, _. split; [exact E|]. right. split; [exact Hf|]. split; eauto.
Qed.

Lemma semanticSearch_outcome {clause}
    (JSON_stringify : list clause -> completion jsstring)
    baseUrl fetch (query : jsstring) (clauses : list clause) (c : console) :
  (exists stringified body,
      JSON_stringify clauses = Normal stringified /\
      request_succeeds fetch (semantic_search_request baseUrl query stringified) body /\
      semanticSearch JSON_stringify baseUrl fetch query clauses c = (Normal body, c)) \/
  (search_fails JSON_stringify baseUrl fetch query clauses /\
   exists e, semanticSearch JSON_stringify baseUrl fetch query clauses c =
             (Normal (fallback_search query),
              c ++ [(lit "Error performing semantic search:", e)])).
Proof.
  unfold request_succeeds, search_fails, request_fails, semanticSearch. run_js.
  destruct (JSON_stringify clauses) as [stringified|e]; [|right; eauto].
  destruct (fetch (semantic_search_request baseUrl query stringified))
    as [r|e] eqn:Hf; [|right; eauto].
  destruct (ok r) eqn:Hok; cbn; [|right; eauto].
  destruct (json r) as [body|e] eqn:Hj; [|right; eauto].
  left. exists stringified, body. split; [reflexivity|].
  split; [exists r; auto|reflexivity].
Qed.

(** X2. [semanticSearch] never throws either: it returns the parsed body of
    a successful request untouched and logs nothing, or, on any failure
    (serialising the clauses included), the empty fallback result after
    logging exactly one error. *)
Theorem semanticSearch_never_throws {clause}
    (JSON_stringify : list clause -> completion jsstring)
    baseUrl fetch (query : jsstring) (clauses : list clause) (c : console) :
  exists v c',
    semanticSearch JSON_stringify baseUrl fetch query clauses c = (Normal v, c') /\
    ((exists stringified,
         JSON_stringify clauses = Normal stringified /\
         request_succeeds fetch (semantic_search_request baseUrl query stringified) v /\
         c' = c) \/
     (search_fails JSON_stringify baseUrl fetch query clauses /\
      v = fallback_search query /\
      exists e, c' = c ++ [(lit "Error performing semantic search:", e)])).
Proof.
  destruct (semanticSearch_outcome JSON_stringify baseUrl fetch query clauses c)
    as [(stringified & body & Hs & Hr & E)|(Hf & e & E)].
  - exists body, c. split; [exact E|]. left. exists stringified. auto.
  - eexists _, _. split; [exact E|]. right. split; [exact Hf|]. split; eauto.
Qed.

(** X3. The two [catch] blocks agree: the [query_analysis] inside the
    fallback search result has the original query, the keywords and the
    intent of the fallback analysis of the same query; but it has no
    [synonyms] (nor [expanded_terms], nor [legal_entities]) property,
    which read as [undefined] on it. *)
Theorem fallback_search_analysis_agrees (query : jsstring) :
  exists props analysis,
    fallback_search query = VObject props /\
    own_property props (lit "query_analysis") = Some (VObject analysis) /\
    get_member analysis (lit "original_query") =
      VString (original_query (fallback_analysis query)) /\
    get_member analysis (lit "keywords") =
      strings (keywords (fallback_analysis query)) /\
    get_member analysis (lit "intent") =
      VString (intent (fallback_analysis query)) /\
    get_member analysis (lit "synonyms") = VUndefined /\
    get_member analysis (lit "expanded_terms") = VUndefined /\
    get_member analysis (lit "legal_entities") = VUndefined.
Proof.
  eexists _, _. split; [reflexivity|]. split; [reflexivity|].
  repeat split; reflexivity.
Qed.

(** ** The fallback tokeniser *)

Lemma split_on_app_sep sep (a b : jsstring) :
  JsString.split_on sep (a ++ sep :: b) =
  JsString.split_on sep a ++ JsString.split_on sep b.
Proof.
  induction a as [|c a IH]; cbn [app JsString.split_on].
  - rewrite N.eqb_refl. reflexivity.
  - destruct (N.eqb c sep).
    + rewrite IH. reflexivity.
    + rewrite IH.
      pose proof (split_on_nonempty sep a) as NE.
      destruct (JsString.split_on sep a) as [|piece pieces]; [congruence|].
      reflexivity.
Qed.

Lemma split_on_absent sep (s : jsstring) :
  ~ In sep s -> JsString.split_on sep s = [s].
Proof.
  induction s as [|c s IH]; cbn [JsString.split_on]; intros H; [reflexivity|].
  destruct (N.eqb c sep) eqn:E.
  - apply N.eqb_eq in E. subst c. exfalso. apply H. left. reflexivity.
  - rewrite IH; [reflexivity|]. intros Hin. apply H. right. exact Hin.
Qed.

(** [parts.join(sep).split(sep)] gives [parts] back when no part holds
    the separator and there is at least one part. *)
Lemma split_on_join sep (parts : list jsstring) :
  parts <> [] ->
  Forall (fun p => ~ In sep p) parts ->
  JsString.split_on sep (JsString.join [sep] parts) = parts.
Proof.
  induction parts as [|p rest IH]; [congruence|]. intros _ F.
  inversion F as [|? ? Hp Hrest]; subst.
  destruct rest as [|q rest'].
  - cbn [JsString.join]. apply split_on_absent. exact Hp.
  - change (JsString.join [sep] (p :: q :: rest'))
      with (p ++ sep :: JsString.join [sep] (q :: rest')).
    rewrite split_on_app_sep, (split_on_absent sep p Hp), IH;
      [reflexivity|discriminate|exact Hrest].
Qed.

Lemma filter_idem {A} (f : A -> bool) (l : list A) :
  filter f (filter f l) = filter f l.
Proof.
  induction l as [|x l IH]; cbn; [reflexivity|].
  destruct (f x) eqn:E; cbn; [rewrite E, IH|]; auto.
Qed.

Lemma fallback_keywords_no_space (query : jsstring) :
  Forall (fun k => ~ In JsString.space k) (fallback_keywords query).
Proof.
  unfold fallback_keywords. apply Forall_forall. intros k Hk.
  apply filter_In in Hk. destruct Hk as [Hin _].
  pose proof (split_on_no_sep JsString.space query) as F.
  rewrite Forall_forall in F. exact (F k Hin).
Qed.

(** X4. Searching again for the fallback keywords joined by spaces gives the
    same keywords: the fallback tokeniser is idempotent. *)
Theorem fallback_keywords_idempotent (query : jsstring) :
  fallback_keywords (JsString.join [JsString.space] (fallback_keywords query)) =
  fallback_keywords query.
Proof.
  destruct (fallback_keywords query) as [|k ks] eqn:E; [reflexivity|].
  unfold fallback_keywords at 1.
  rewrite split_on_join.
  - rewrite <- E. unfold fallback_keywords. apply filter_idem.
  - discriminate.
  - rewrite <- E. apply fallback_keywords_no_space.
Qed.

(** X5. The fallback keywords of two queries put together with one space
    between them are those of the first followed by those of the second. *)
Theorem fallback_keywords_concat (a b : jsstring) :
  fallback_keywords (a ++ [JsString.space] ++ b) =
  fallback_keywords a ++ fallback_keywords b.
Proof.
  unfold fallback_keywords. cbn [app].
  rewrite split_on_app_sep. apply filter_app.
Qed.

Lemma join_length sep (parts : list jsstring) :
  parts <> [] ->
  S (List.length (JsString.join [sep] parts)) =
  list_sum (map (fun p => S (List.length p)) parts).
Proof.
  induction parts as [|p rest IH]; [congruence|]. intros _.
  destruct rest as [|q rest'].
  - cbn. lia.
  - change (JsString.join [sep] (p :: q :: rest'))
      with (p ++ sep :: JsString.join [sep] (q :: rest')).
    specialize (IH ltac:(discriminate)).
    rewrite length_app. cbn [List.length]. rewrite IH.
    unfold list_sum. cbn [map fold_right]. lia.
Qed.

Lemma long_pieces_bound (pieces : list jsstring) :
  4 * List.length (filter (fun word => 2 <? JsString.length word) pieces) <=
  list_sum (map (fun p => S (List.length p)) pieces).
Proof.
  unfold list_sum.
  induction pieces as [|p rest IH]; cbn [filter map fold_right List.length]; [lia|].
  destruct (2 <? JsString.length p) eqn:E.
  - apply Nat.ltb_lt in E. unfold JsString.length in E.
    cbn [List.length]. lia.
  - lia.
Qed.

(** X6. A query of [n] code units has at most [(n + 1) / 4] fallback
    keywords: each takes three code units or more and a space apart. *)
Theorem fallback_keywords_count (query : jsstring) :
  4 * List.length (fallback_keywords query) <= JsString.length query + 1.
Proof.
  unfold fallback_keywords.
  pose proof (long_pieces_bound (JsString.split_on JsString.space query)) as B.
  pose proof (join_length JsString.space (JsString.split_on JsString.space query)
                (split_on_nonempty JsString.space query)) as L.
  rewrite join_split_on in L. unfold JsString.length in *. lia.
Qed.

(* ================================================================== *)
(** * More on generateSuggestions, getConfidenceStyling and isAvailable *)
(* ================================================================== *)

Lemma all_suggestions_length (analysis : QueryAnalysis) :
  List.length (all_suggestions analysis) <= 3.
Proof.
  unfold all_suggestions.
  destruct (List.length (keywords analysis) <? 3);
    destruct (0 <? List.length (synonyms analysis));
    destruct (intent_suggestion (intent analysis)); cbn; lia.
Qed.

(** X7. The final [slice(0, 3)] never drops a suggestion: the three rules
    give at most one suggestion each, and all of them are returned, in
    the order keywords, synonyms, intent. *)
Theorem generateSuggestions_never_truncates (analysis : QueryAnalysis) :
  generateSuggestions analysis = all_suggestions analysis.
Proof.
  rewrite generateSuggestions_unfold.
  change (firstn 3 (all_suggestions analysis) = all_suggestions analysis).
  apply firstn_all2. apply all_suggestions_length.
Qed.

Lemma intent_suggestion_known (intent : jsstring) :
  known_intent intent = false <-> intent_suggestion intent = None.
Proof.
  unfold known_intent, intent_suggestion. cbn [existsb map].
  repeat match goal with
         | |- context [JsString.eqb intent ?l] => destruct (JsString.eqb intent l)
         end; cbn; split; congruence.
Qed.

(** X8. No suggestion is returned exactly when the analysis has 3 keywords
    or more, no synonym, and an intent outside the five of the switch
    ('general' among them). *)
Theorem generateSuggestions_empty_iff (analysis : QueryAnalysis) :
  generateSuggestions analysis = [] <->
  3 <= List.length (keywords analysis) /\
  synonyms analysis = [] /\
  known_intent (intent analysis) = false.
Proof.
  rewrite generateSuggestions_unfold, intent_suggestion_known.
  destruct (List.length (keywords analysis) <? 3) eqn:Hk;
    [apply Nat.ltb_lt in Hk|apply Nat.ltb_ge in Hk];
    destruct (synonyms analysis) as [|syn rest];
    destruct (intent_suggestion (intent analysis));
    cbn; split; try discriminate; intros H;
    try (destruct H as (H1 & H2 & H3)); try discriminate; try lia; auto.
Qed.

(** X9. The suggestions returned are pairwise different. *)
Theorem generateSuggestions_NoDup (analysis : QueryAnalysis) :
  NoDup (generateSuggestions analysis).
Proof.
  rewrite generateSuggestions_unfold.
  pose proof (synonym_suggestion_not_more_specific analysis) as Hsyn.
  pose proof (intent_suggestion_shape (intent analysis)) as Hint.
  assert (Hst : JsString.starts_with also_try (synonym_suggestion analysis) = true)
    by apply starts_with_app.
  destruct (List.length (keywords analysis) <? 3);
    destruct (0 <? List.length (synonyms analysis));
    destruct (intent_suggestion (intent analysis)) as [i|];
    cbn [app firstn];
    try destruct (Hint i eq_refl) as [Hi Hm];
    repeat constructor; cbn [In]; intuition (subst; congruence).
Qed.

(** X10. The suggestions depend on the analysis only through whether it has
    fewer than 3 keywords, its first 3 synonyms and its intent: the
    keywords themselves, the further synonyms and the other fields are
    not read. *)
Theorem generateSuggestions_reads (a b : QueryAnalysis) :
  (List.length (keywords a) <? 3) = (List.length (keywords b) <? 3) ->
  firstn 3 (synonyms a) = firstn 3 (synonyms b) ->
  intent a = intent b ->
  generateSuggestions a = generateSuggestions b.
Proof.
  intros Hk Hs Hi. rewrite !generateSuggestions_unfold.
  unfold synonym_suggestion. rewrite Hk, Hs, Hi.
  assert (Hn : (0 <? List.length (synonyms a)) = (0 <? List.length (synonyms b))).
  { destruct (synonyms a), (synonyms b); cbn in *; congruence. }
  rewrite Hn. reflexivity.
Qed.

Lemma generateSuggestions_reads_witness :
  generateSuggestions
    (mkQueryAnalysis (lit "who pays") [lit "who"; lit "pays"]
       [lit "fee"; lit "wage"; lit "salary"; lit "remuneration"]
       [lit "pays"] (lit "responsibility") [lit "payment"]) =
  generateSuggestions
    (mkQueryAnalysis [] []
       [lit "fee"; lit "wage"; lit "salary"] [] (lit "responsibility") []).
Proof.
  apply (generateSuggestions_reads
           (mkQueryAnalysis (lit "who pays") [lit "who"; lit "pays"]
              [lit "fee"; lit "wage"; lit "salary"; lit "remuneration"]
              [lit "pays"] (lit "responsibility") [lit "payment"])
           (mkQueryAnalysis [] []
              [lit "fee"; lit "wage"; lit "salary"] [] (lit "responsibility") []));
    reflexivity.
Defined.

(** X11. [getConfidenceStyling] falls back to the low-confidence styling
    exactly for the keys that are neither 'high' nor 'medium' nor a
    member of [Object.prototype] ('low' itself and [undefined] included). *)
Theorem getConfidenceStyling_low_iff (confidence : option jsstring) :
  getConfidenceStyling confidence = get_member styles (lit "low") <->
  template confidence <> lit "high" /\
  template confidence <> lit "medium" /\
  in_object_prototype (template confidence) = false.
Proof.
  unfold getConfidenceStyling, get_member at 1 2.
  set (key := template confidence). cbn [styles own_property].
  destruct (JsString.eqb (lit "high") key) eqn:Eh.
  { apply eqb_eq in Eh. split; [discriminate|]. intros (H & _). congruence. }
  destruct (JsString.eqb (lit "medium") key) eqn:Em.
  { apply eqb_eq in Em. split; [discriminate|]. intros (_ & H & _). congruence. }
  assert (Nh : key <> lit "high").
  { intros E. rewrite E, eqb_refl in Eh. discriminate. }
  assert (Nm : key <> lit "medium").
  { intros E. rewrite E, eqb_refl in Em. discriminate. }
  destruct (JsString.eqb (lit "low") key) eqn:El.
  { apply eqb_eq in El. split; [intros _|reflexivity].
    repeat split; auto. rewrite <- El. reflexivity. }
  destruct (in_object_prototype key) eqn:Ep; cbn.
  - split; [discriminate|]. intros (_ & _ & H). discriminate H.
  - split; auto.
Qed.

(** X12. Whatever it is given, [getConfidenceStyling] returns a truthy value:
    one of the styling objects or an inherited member, never [undefined]
    or [null], so reading a property of the result cannot throw. *)
Theorem getConfidenceStyling_truthy (confidence : option jsstring) :
  truthy (getConfidenceStyling confidence) = true.
Proof.
  unfold getConfidenceStyling.
  destruct (truthy (get_member styles (template confidence))) eqn:T;
    [exact T|reflexivity].
Qed.

Lemma snoc_neq {A} (l : list A) (x : A) : l ++ [x] <> l.
Proof.
  intros E. apply (f_equal (@List.length A)) in E.
  rewrite length_app in E. cbn in E. lia.
Qed.

(** X13. [isAvailable] logs an error exactly when [fetch] rejects, the body
    does not parse, or the body is [null]; a body that parses to anything
    else gives its answer silently. *)
Theorem isAvailable_logs_iff baseUrl fetch (c : console) :
  exists b c',
    isAvailable baseUrl fetch c = (Normal b, c') /\
    (c' = c <->
     exists r data,
       fetch (health_request baseUrl) = Normal r /\
       json r = Normal data /\ data <> VNull /\ data <> VUndefined) /\
    (c' = c \/
     (b = false /\
      exists e, c' = c ++ [(lit "Error checking semantic matcher availability:", e)])).
Proof.
  unfold isAvailable. run_js.
  destruct (fetch (health_request baseUrl)) as [r|e] eqn:Hf.
  - destruct (json r) as [data|e] eqn:Hj.
    + destruct data as [| |b|x|s|elems|props|name]; cbn;
        eexists _, _; (split; [reflexivity|]); split;
        try (split; [intros _; eexists _, _; repeat split; eauto; discriminate
                    |reflexivity]);
        try (left; reflexivity);
        try (split; [intros E; destruct (snoc_neq _ _ E)
                    |intros (r' & d & Hr & Hd & N1 & N2);
                     injection Hr as <-; rewrite Hj in Hd; injection Hd as <-;
                     congruence]);
        try (right; split; [reflexivity|eauto]).
    + eexists _, _. split; [reflexivity|]. split.
      * split; [intros E; destruct (snoc_neq _ _ E)|].
        intros (r' & d & Hr & Hd & _).
        injection Hr as <-. rewrite Hj in Hd. discriminate Hd.
      * right. split; [reflexivity|eauto].
  - eexists _, _. split; [reflexivity|]. split.
    + split; [intros E; destruct (snoc_neq _ _ E)|].
      intros (r' & d & Hr & _). discriminate Hr.
    + right. split; [reflexivity|eauto].
Qed.

(* ================================================================== *)
(** * More on the query-analysis effect *)
(* ================================================================== *)

Section EffectTrace.

Variable clause : Type.
Variable JSON_stringify : list clause -> completion jsstring.
Variable baseUrl : option jsstring.
Variable fetch : request -> completion response.

Lemma analyzeQueryDebounced_made closure (c : console) :
  fst (analyzeQueryDebounced JSON_stringify baseUrl fetch closure c) =
  firing_calls closure.
Proof.
  destruct closure as [query cls]. unfold analyzeQueryDebounced, firing_calls.
  cbn [fst snd].
  destruct (analyzeQuery_outcome baseUrl fetch query c)
    as [(body & _ & E)|(_ & e & E)]; rewrite E.
  - destruct (0 <? List.length cls); [|reflexivity].
    destruct (semanticSearch JSON_stringify baseUrl fetch query cls c)
      as [[results|e] c2]; reflexivity.
  - destruct (0 <? List.length cls); [|reflexivity].
    destruct (semanticSearch JSON_stringify baseUrl fetch query cls _)
      as [[results|e'] c2]; reflexivity.
Qed.

Lemma reachable_firings (query : jsstring) (cls : list clause) (s : component clause) :
  reachable JSON_stringify baseUrl fetch query cls s -> firings (calls s).
Proof.
  induction 1 as [|s s' _ IH Hstep].
  - constructor.
  - destruct Hstep as [s q' cls' | s closure made c' Ht Hrun | s]; cbn; auto.
    pose proof (analyzeQueryDebounced_made closure (output s)) as M.
    rewrite Hrun in M. cbn in M. subst made. constructor. exact IH.
Qed.

Lemma firings_search (trace : list (engine_call clause)) :
  firings trace ->
  forall q cls, In (CallSemanticSearch q cls) trace ->
                cls <> [] /\ In (CallAnalyzeQuery q) trace.
Proof.
  induction 1 as [|trace closure _ IH]; intros q cls Hin; [destruct Hin|].
  apply in_app_or in Hin. destruct Hin as [Hin|Hin].
  - destruct (IH q cls Hin) as [Hne Ha]. split; [exact Hne|].
    apply in_or_app. left. exact Ha.
  - unfold firing_calls in *. destruct closure as [q' cls']. cbn [fst snd] in *.
    destruct Hin as [Hin|Hin]; [discriminate Hin|].
    destruct cls' as [|x cls']; cbn in Hin; [destruct Hin|].
    destruct Hin as [Hin|[]]. injection Hin as <- <-.
    split; [discriminate|]. apply in_or_app. right. left. reflexivity.
Qed.

End EffectTrace.

(** X14. When the timer fires, [analyzeQuery] is always called, and
    [semanticSearch] is called after it exactly when the clause list of
    the closure is not empty, whatever the backend answers: since
    [analyzeQuery] never throws, the search is never skipped. *)
Theorem timer_firing_calls (clause : Type)
    (JSON_stringify : list clause -> completion jsstring)
    (baseUrl : option jsstring) (fetch : request -> completion response)
    (highlightingQuery : jsstring) (clauses : list clause) (c : console) :
  fst (analyzeQueryDebounced JSON_stringify baseUrl fetch
         (highlightingQuery, clauses) c) =
  match clauses with
  | [] => [CallAnalyzeQuery highlightingQuery]
  | _ :: _ => [CallAnalyzeQuery highlightingQuery;
               CallSemanticSearch highlightingQuery clauses]
  end.
Proof.
  rewrite analyzeQueryDebounced_made. unfold firing_calls. cbn [fst snd].
  destruct clauses; reflexivity.
Qed.

(** X15. Every [semanticSearch] call the component has made was for a
    non-empty clause list, and [analyzeQuery] was called for the same
    query. *)
Theorem search_calls_follow_analysis (clause : Type)
    (JSON_stringify : list clause -> completion jsstring)
    (baseUrl : option jsstring) (fetch : request -> completion response)
    (query : jsstring) (cls : list clause) (s : component clause)
    (q : jsstring) (searched : list clause) :
  reachable JSON_stringify baseUrl fetch query cls s ->
  In (CallSemanticSearch q searched) (calls s) ->
  searched <> [] /\ In (CallAnalyzeQuery q) (calls s).
Proof.
  intros Hreach Hin.
  apply (firings_search clause (calls s)); [|exact Hin].
  exact (reachable_firings clause JSON_stringify baseUrl fetch query cls s Hreach).
Qed.

Lemma search_calls_follow_analysis_witness :
  let stringify := fun _ : list nat => Normal (lit "[7]") in
  let s := mkComponent (lit "custody") [7] None
             [CallAnalyzeQuery (lit "custody");
              CallSemanticSearch (lit "custody") [7]]
             [(lit "Error analyzing query:", HostError (lit "Failed to fetch"));
              (lit "Error performing semantic search:",
               HostError (lit "Failed to fetch"))] in
  reachable stringify None offline (lit "custody") [7] s /\
  In (CallSemanticSearch (lit "custody") [7]) (calls s) /\
  [7] <> [] /\ In (CallAnalyzeQuery (lit "custody")) (calls s).
Proof.
  intros stringify s.
  assert (R : reachable stringify None offline (lit "custody") [7] s).
  { eapply reachable_step.
    - apply reachable_mount.
    - eapply (step_timeout stringify None offline (mount (lit "custody") [7]));
        reflexivity. }
  assert (M : In (CallSemanticSearch (lit "custody") [7]) (calls s))
    by (right; left; reflexivity).
  split; [exact R|]. split; [exact M|].
  exact (search_calls_follow_analysis nat stringify None offline
           (lit "custody") [7] s (lit "custody") [7] R M).
Defined.

Section AwaitPointsFacts.

Variable clause : Type.
Variable JSON_stringify : list clause -> completion jsstring.
Variable baseUrl : option jsstring.
Variable fetch : request -> completion response.

Notation areachable := (async_reachable JSON_stringify baseUrl fetch).
Notation astep := (async_step JSON_stringify baseUrl fetch).

(** With the awaits as separate transitions too, every call made and
    every closure armed or suspended carries a query longer than 3. *)
Definition async_guarded (s : async_component clause) : Prop :=
  (forall call, In call (made_calls s) -> 3 < JsString.length (call_query call)) /\
  (forall closure, armed s = Some closure -> 3 < JsString.length (fst closure)) /\
  (forall closure, In closure (awaiting_analysis s) ->
                   3 < JsString.length (fst closure)) /\
  (forall closure, In closure (awaiting_search s) ->
                   3 < JsString.length (fst closure)).

Lemma In_without {A} (before after : list A) (x y : A) :
  In y (before ++ after) -> In y (before ++ x :: after).
Proof.
  rewrite !in_app_iff. intros [H|H]; [left|right; right]; exact H.
Qed.

Lemma In_middle {A} (before after : list A) (x : A) :
  In x (before ++ x :: after).
Proof. apply in_or_app. right. left. reflexivity. Qed.

Lemma async_step_guarded (s s' : async_component clause) :
  astep s s' -> async_guarded s -> async_guarded s'.
Proof.
  intros Hstep (Hcalls & Harmed & Han & Hse).
  destruct Hstep as [s query cls | s closure Ha | s before closure after r c1 Hw Hrun
                    | s before closure after r c2 Hw Hrun | s].
  - repeat split; cbn; auto.
    intros closure H. apply analysis_effect_guard in H. destruct H as [-> L]. exact L.
  - pose proof (Harmed closure Ha) as L.
    repeat split; cbn; auto; try discriminate.
    + intros call Hin. apply in_app_or in Hin. destruct Hin as [Hin|[<-|[]]]; auto.
    + intros cl Hin. apply in_app_or in Hin. destruct Hin as [Hin|[<-|[]]]; auto.
  - assert (L : 3 < JsString.length (fst closure)).
    { apply Han. rewrite Hw. apply In_middle. }
    assert (Hothers : forall cl, In cl (before ++ after) ->
                                 3 < JsString.length (fst cl)).
    { intros cl Hin. apply Han. rewrite Hw. apply In_without. exact Hin. }
    unfold resume_analysis.
    destruct r as [analysis|error]; [destruct (0 <? List.length (snd closure))|];
      repeat split; cbn; auto.
    + intros call Hin. apply in_app_or in Hin. destruct Hin as [Hin|[<-|[]]]; auto.
    + intros cl Hin. apply in_app_or in Hin. destruct Hin as [Hin|[<-|[]]]; auto.
  - repeat split; cbn; auto.
    intros cl Hin. apply Hse. rewrite Hw. apply In_without. exact Hin.
  - repeat split; cbn; auto. discriminate.
Qed.

Lemma async_reachable_guarded (query : jsstring) (cls : list clause)
    (s : async_component clause) :
  areachable query cls s -> async_guarded s.
Proof.
  induction 1 as [|s s' _ IH Hstep].
  - split; [|split; [|split]]; cbn.
    + intros call [].
    + intros closure H. apply analysis_effect_guard in H.
      destruct H as [-> L]. exact L.
    + intros closure [].
    + intros closure [].
  - exact (async_step_guarded s s' Hstep IH).
Qed.

End AwaitPointsFacts.

(** X16. An armed timer always holds the query and the clauses of the
    current render, also while callbacks that fired earlier are still
    suspended at their awaits: a render with new dependencies clears the
    timer of the previous one before it arms its own. *)
Theorem armed_timer_is_current (clause : Type)
    (JSON_stringify : list clause -> completion jsstring)
    (baseUrl : option jsstring) (fetch : request -> completion response)
    (query : jsstring) (cls : list clause) (s : async_component clause)
    (closure : jsstring * list clause) :
  async_reachable JSON_stringify baseUrl fetch query cls s ->
  armed s = Some closure ->
  closure = (current_query s, current_clauses s).
Proof.
  intros Hreach. revert closure.
  induction Hreach as [|s s' _ IH Hstep]; intros closure Ht.
  - cbn in Ht. apply analysis_effect_guard in Ht. destruct Ht as [-> _].
    reflexivity.
  - destruct Hstep as [s q' cls' | s cl Ha | s before cl after r c1 Hw Hrun
                      | s before cl after r c2 Hw Hrun | s].
    + cbn in Ht. apply analysis_effect_guard in Ht. destruct Ht as [-> _].
      reflexivity.
    + discriminate Ht.
    + unfold resume_analysis in *.
      destruct r as [analysis|error];
        [destruct (0 <? List.length (snd cl))|]; cbn in *; auto.
    + cbn in *. auto.
    + discriminate Ht.
Qed.

Lemma armed_timer_is_current_witness :
  let stringify := fun _ : list nat => Normal (lit "[7]") in
  let s := mkAsync (lit "payment") [7] (Some (lit "payment", [7]))
             [(lit "custody", [7])] []
             [CallAnalyzeQuery (lit "custody")] [] in
  async_reachable stringify None offline (lit "custody") [7] s /\
  armed s = Some (lit "payment", [7]) /\
  (lit "payment", [7]) = (current_query s, current_clauses s).
Proof.
  intros stringify s.
  assert (R : async_reachable stringify None offline (lit "custody") [7] s).
  { eapply async_reachable_step.
    - eapply async_reachable_step.
      + apply async_reachable_mount.
      + apply (@async_fire nat stringify None offline
                 (async_mount (lit "custody") [7]) (lit "custody", [7])).
        reflexivity.
    - apply (@async_render nat stringify None offline
               (mkAsync (lit "custody") [7] None [(lit "custody", [7])] []
                        [CallAnalyzeQuery (lit "custody")] [])
               (lit "payment") [7]). }
  split; [exact R|]. split; [reflexivity|].
  exact (armed_timer_is_current nat stringify None offline (lit "custody") [7] s
           (lit "payment", [7]) R eq_refl).
Defined.



(* ================================================================== *)
(** * What the clause-location step renders *)
(* ================================================================== *)

(** X17. The preview of a match keeps the first 200 code units of the text
    and is never longer than 203: a text of at most 200 code units is
    shown whole, a longer one is cut at 200 and followed by '...'. *)
Theorem match_preview_spec (text : jsstring) :
  firstn 200 (match_preview text) = firstn 200 text /\
  JsString.length (match_preview text) =
    (if JsString.length text <=? 200 then JsString.length text else 203).
Proof.
  unfold match_preview, substring0, JsString.length.
  destruct (200 <? List.length text) eqn:L.
  - apply Nat.ltb_lt in L.
    assert (Hlen : List.length (firstn 200 text) = 200)
      by (rewrite length_firstn; lia).
    split.
    + rewrite firstn_app, Hlen, Nat.sub_diag, firstn_O, app_nil_r, firstn_firstn.
      rewrite Nat.min_id. reflexivity.
    + rewrite length_app, Hlen.
      destruct (List.length text <=? 200) eqn:L'; [apply Nat.leb_le in L'; lia|].
      reflexivity.
  - apply Nat.ltb_ge in L. split; [reflexivity|].
    destruct (List.length text <=? 200) eqn:L'; [reflexivity|].
    apply Nat.leb_gt in L'. lia.
Qed.

(** ** Flagged clauses *)

Lemma set_has_In (s : index_set) (idx : nat) : set_has s idx = true <-> In idx s.
Proof.
  unfold set_has. rewrite existsb_exists. split.
  - intros (x & Hin & E). apply Nat.eqb_eq in E. subst x. exact Hin.
  - intros Hin. exists idx. split; [exact Hin|apply Nat.eqb_refl].
Qed.

Lemma set_has_app (s t : index_set) (idx : nat) :
  set_has (s ++ t) idx = set_has s idx || set_has t idx.
Proof. unfold set_has. apply existsb_app. Qed.

Lemma set_has_delete (s : index_set) (idx j : nat) :
  set_has (set_delete s idx) j = negb (Nat.eqb idx j) && set_has s j.
Proof.
  unfold set_delete, set_has.
  induction s as [|x s IH]; cbn [filter existsb]; [rewrite andb_false_r; reflexivity|].
  destruct (Nat.eqb idx x) eqn:Ex; cbn [negb existsb]; rewrite IH.
  - apply Nat.eqb_eq in Ex. subst x.
    destruct (Nat.eqb idx j) eqn:Ej; cbn; [reflexivity|].
    rewrite Nat.eqb_sym, Ej. reflexivity.
  - destruct (Nat.eqb j x) eqn:Ejx; cbn; [|reflexivity].
    apply Nat.eqb_eq in Ejx. subst x. rewrite Ex. reflexivity.
Qed.

(** X18. Toggling the flag of a clause flips its membership and leaves every
    other clause as it was. *)
Theorem toggleFlagClause_has (flagged : index_set) (idx j : nat) :
  set_has (toggleFlagClause flagged idx) j =
  if Nat.eqb idx j then negb (set_has flagged idx) else set_has flagged j.
Proof.
  unfold toggleFlagClause, set_add.
  destruct (set_has flagged idx) eqn:H.
  - rewrite set_has_delete.
    destruct (Nat.eqb idx j); reflexivity.
  - rewrite set_has_app. cbn. rewrite orb_false_r.
    destruct (Nat.eqb idx j) eqn:E.
    + rewrite Nat.eqb_sym, E. apply orb_true_r.
    + rewrite Nat.eqb_sym, E. apply orb_false_r.
Qed.

Lemma NoDup_snoc (s : index_set) (idx : nat) :
  NoDup s -> ~ In idx s -> NoDup (s ++ [idx]).
Proof.
  intros Hs Hn. induction Hs as [|x s Hx Hs IH]; cbn.
  - constructor; [intros []|constructor].
  - constructor.
    + rewrite in_app_iff. intros [H|[H|[]]]; [tauto|].
      subst x. apply Hn. left. reflexivity.
    + apply IH. intros H. apply Hn. right. exact H.
Qed.

Lemma toggleFlagClause_NoDup (flagged : index_set) (idx : nat) :
  NoDup flagged -> NoDup (toggleFlagClause flagged idx).
Proof.
  intros Hs. unfold toggleFlagClause, set_add, set_delete.
  destruct (set_has flagged idx) eqn:H.
  - apply NoDup_filter. exact Hs.
  - apply NoDup_snoc; [exact Hs|].
    rewrite <- set_has_In, H. discriminate.
Qed.

Lemma delete_length (s : index_set) (idx : nat) :
  NoDup s -> In idx s -> S (List.length (set_delete s idx)) = List.length s.
Proof.
  unfold set_delete. induction 1 as [|x s Hx Hs IH]; intros Hin; [destruct Hin|].
  cbn [filter]. destruct (Nat.eqb idx x) eqn:E; cbn [negb List.length].
  - apply Nat.eqb_eq in E. subst x. f_equal.
    f_equal. clear IH Hin Hs. induction s as [|y s IH]; [reflexivity|].
    cbn [filter]. destruct (Nat.eqb idx y) eqn:Ey; cbn [negb].
    + apply Nat.eqb_eq in Ey. subst y. exfalso. apply Hx. left. reflexivity.
    + rewrite IH; [reflexivity|]. intros H. apply Hx. right. exact H.
  - f_equal. apply IH. destruct Hin as [->|Hin]; [|exact Hin].
    rewrite Nat.eqb_refl in E. discriminate E.
Qed.

(** X19. On a set without repeats, toggling the flag of a clause changes the
    number of flagged clauses by exactly one: one fewer if the clause was
    flagged, one more if it was not. *)
Theorem toggleFlagClause_size (flagged : index_set) (idx : nat) :
  NoDup flagged ->
  List.length (toggleFlagClause flagged idx) =
  if set_has flagged idx then List.length flagged - 1 else List.length flagged + 1.
Proof.
  intros Hs. unfold toggleFlagClause, set_add.
  destruct (set_has flagged idx) eqn:H.
  - apply set_has_In in H. pose proof (delete_length flagged idx Hs H). lia.
  - rewrite length_app. reflexivity.
Qed.

Lemma toggleFlagClause_size_witness :
  NoDup [2; 0; 5] /\
  List.length (toggleFlagClause [2; 0; 5] 0) =
  if set_has [2; 0; 5] 0 then List.length [2; 0; 5] - 1 else List.length [2; 0; 5] + 1.
Proof.
  assert (N : NoDup [2; 0; 5]).
  { repeat constructor; cbn; intuition discriminate. }
  split; [exact N|]. exact (toggleFlagClause_size [2; 0; 5] 0 N).
Defined.

(** X20. Flagging a clause that was not flagged and unflagging it again gives
    back the set as it was, order included. *)
Theorem toggleFlagClause_undo (flagged : index_set) (idx : nat) :
  set_has flagged idx = false ->
  toggleFlagClause (toggleFlagClause flagged idx) idx = flagged.
Proof.
  intros H. unfold toggleFlagClause at 2. unfold set_add. rewrite H.
  unfold toggleFlagClause. rewrite set_has_app. cbn [set_has existsb].
  rewrite Nat.eqb_refl, orb_true_r. unfold set_delete.
  rewrite filter_app. cbn [filter]. rewrite Nat.eqb_refl. cbn [negb].
  rewrite app_nil_r.
  induction flagged as [|x s IH]; [reflexivity|].
  cbn [set_has existsb] in H. apply orb_false_iff in H. destruct H as [Hx Hs].
  cbn [filter]. rewrite Hx. cbn [negb]. f_equal. apply IH. exact Hs.
Qed.

Lemma toggleFlagClause_undo_witness :
  set_has [4; 1] 3 = false /\
  toggleFlagClause (toggleFlagClause [4; 1] 3) 3 = [4; 1].
Proof.
  split; [reflexivity|]. apply (toggleFlagClause_undo [4; 1] 3). reflexivity.
Defined.

(** X21. There is one suggested query per flagged clause, and each is truthy:
    a truthy title, or else the label 'Clause n' with n the index plus one;
    an index outside the clause list gets the label. *)
Theorem flaggedClauseQueries_spec (flagged : index_set) (clauses : list value) :
  List.length (flaggedClauseQueries flagged clauses) = List.length flagged /\
  (forall label, In label (flaggedClauseQueries flagged clauses) ->
                 truthy label = true) /\
  (forall idx, In idx flagged -> nth_error clauses idx = None ->
               In (VString (lit "Clause " ++ decimal (idx + 1)))
                  (flaggedClauseQueries flagged clauses)).
Proof.
  unfold flaggedClauseQueries. split; [apply length_map|]. split.
  - intros label Hin. apply in_map_iff in Hin. destruct Hin as (idx & <- & _).
    destruct (truthy (optional_title (nth_error clauses idx))) eqn:T;
      [exact T|reflexivity].
  - intros idx Hin Hnone. apply in_map_iff. exists idx. split; [|exact Hin].
    rewrite Hnone. reflexivity.
Qed.

Lemma flaggedClauseQueries_spec_witness :
  In 3 [0; 3] /\
  nth_error [VObject [(lit "title", VString (lit "Custody"))]] 3 = None /\
  In (VString (lit "Clause 4"))
     (flaggedClauseQueries [0; 3] [VObject [(lit "title", VString (lit "Custody"))]]).
Proof.
  assert (M : In 3 [0; 3]) by (right; left; reflexivity).
  split; [exact M|]. split; [reflexivity|].
  exact (proj2 (proj2 (flaggedClauseQueries_spec [0; 3]
                         [VObject [(lit "title", VString (lit "Custody"))]]))
               3 M eq_refl).
Defined.

(** X22. Choosing a 'Clause n' label as the query always arms the analysis
    timer: the label is longer than 3 whatever the index. *)
Theorem clause_label_arms_timer {clause} (n : nat) (cls : list clause) :
  analysis_effect (lit "Clause " ++ decimal n) cls =
  Some (lit "Clause " ++ decimal n, cls).
Proof.
  unfold analysis_effect. cbn [lit JsString.lit app].
  reflexivity.
Qed.

(* ================================================================== *)
(** * The highlight handler *)
(* ================================================================== *)

Section HighlightHandlerFacts.

Variable file : Type.
Variable blob : Type.
Variable fetch_highlight : file -> jsstring -> completion (completion blob).
Variable createObjectURL : blob -> jsstring.

Notation handle := (handleHighlightPDF fetch_highlight createObjectURL).

Lemma truthy_string (s : jsstring) : truthy (VString s) = true <-> s <> [].
Proof. destruct s; cbn; split; congruence. Qed.

(** X23. Once the handler has passed its guard (a file and a non-empty
    query), it sends exactly one request, for that file and that query,
    and it leaves [isHighlighting] false however the request ends: the
    spinner cannot stay on. *)
Theorem handleHighlightPDF_sends (s : highlight_view file) (f : file) :
  view_file s = Some f ->
  view_query s <> [] ->
  sent (handle s) = sent s ++ [(f, view_query s)] /\
  isHighlighting (handle s) = false.
Proof.
  intros Hf Hq. apply truthy_string in Hq.
  unfold handleHighlightPDF. rewrite Hf, Hq.
  destruct (fetch_highlight f (view_query s)) as [[b|e]|e]; cbn; auto.
Qed.

(** X24. Without a file, or with an empty query, the handler sends nothing
    and changes nothing but the alerts, to which it adds the request to
    upload a file and enter a query. *)
Theorem handleHighlightPDF_guard (s : highlight_view file) :
  view_file s = None \/ view_query s = [] ->
  handle s =
  mkHighlightView (view_file s) (view_query s) (isHighlighting s)
    (highlightedPDF s) (alerts s ++ [guard_alert]) (view_console s) (sent s).
Proof.
  intros H. unfold handleHighlightPDF.
  destruct (view_file s) as [f|]; [|reflexivity].
  destruct H as [H|H]; [discriminate H|]. rewrite H. reflexivity.
Qed.

(** X25. The handler either shows an alert or replaces the highlighted PDF,
    never both and never neither: it shows no alert exactly when the
    guard passed and both [fetch] and [blob()] resolved, and then the
    highlighted PDF is the object URL of that blob; in every other case
    the previous highlighted PDF is kept. *)
Theorem handleHighlightPDF_outcome (s : highlight_view file) :
  (exists f b,
      view_file s = Some f /\ view_query s <> [] /\
      fetch_highlight f (view_query s) = Normal (Normal b) /\
      alerts (handle s) = alerts s /\
      highlightedPDF (handle s) = Some (createObjectURL b)) \/
  (exists message,
      alerts (handle s) = alerts s ++ [message] /\
      highlightedPDF (handle s) = highlightedPDF s).
Proof.
  unfold handleHighlightPDF.
  destruct (view_file s) as [f|] eqn:Hf; [|right; eexists; cbn; eauto].
  destruct (truthy (VString (view_query s))) eqn:Hq;
    [|right; eexists; cbn; eauto].
  apply truthy_string in Hq.
  destruct (fetch_highlight f (view_query s)) as [[b|e]|e] eqn:Hr;
    [left|right; eexists; cbn; eauto|right; eexists; cbn; eauto].
  exists f, b. cbn. auto.
Qed.

End HighlightHandlerFacts.

Lemma handleHighlightPDF_sends_witness :
  let s := mkHighlightView (Some 1) (lit "custody") false None [] [] [] in
  let host := fun (_ : nat) (_ : jsstring) =>
                @Throw (completion nat) (HostError (lit "Failed to fetch")) in
  view_file s = Some 1 /\ view_query s <> [] /\
  sent (handleHighlightPDF host (fun _ => lit "blob:1") s) =
    sent s ++ [(1, view_query s)] /\
  isHighlighting (handleHighlightPDF host (fun _ => lit "blob:1") s) = false.
Proof.
  intros s host.
  assert (Q : view_query s <> []) by discriminate.
  split; [reflexivity|]. split; [exact Q|].
  exact (handleHighlightPDF_sends nat nat host (fun _ => lit "blob:1") s 1 eq_refl Q).
Defined.

Lemma handleHighlightPDF_guard_witness :
  let s := mkHighlightView (@None nat) (lit "custody") false None [] [] [] in
  let host := fun (_ : nat) (_ : jsstring) => Normal (Normal 0) in
  (view_file s = None \/ view_query s = []) /\
  handleHighlightPDF host (fun _ => lit "blob:1") s =
  mkHighlightView (view_file s) (view_query s) (isHighlighting s)
    (highlightedPDF s) (alerts s ++ [guard_alert]) (view_console s) (sent s).
Proof.
  intros s host.
  assert (G : view_file s = None \/ view_query s = []) by (left; reflexivity).
  split; [exact G|].
  exact (handleHighlightPDF_guard nat nat host (fun _ => lit "blob:1") s G).
Defined.

(* ================================================================== *)
(** * The wizard *)
(* ================================================================== *)

Lemma run_from_invariant (P : wizard -> Prop) (allowed : wizard_event -> bool) :
  (forall w ev, P w -> allowed ev = true -> P (wizard_step w ev)) ->
  forall events w,
    P w -> forallb allowed events = true -> P (fold_left wizard_step events w).
Proof.
  intros Hstep. induction events as [|ev events IH]; intros w Hw Hall; [exact Hw|].
  cbn [forallb] in Hall. apply andb_true_iff in Hall. destruct Hall as [Hev Hall].
  cbn [fold_left]. apply IH; [apply Hstep; assumption|exact Hall].
Qed.

Lemma forallb_any (events : list wizard_event) :
  forallb (fun _ => true) events = true.
Proof. induction events; cbn; auto. Qed.

(** X26. Whatever the controls and the steps do, the last entry of the step
    history is the current step. *)
Theorem stepHistory_ends_at_currentStep (events : list wizard_event) :
  exists visited,
    stepHistory (run_wizard events) = visited ++ [currentStep (run_wizard events)].
Proof.
  unfold run_wizard.
  apply (run_from_invariant
           (fun w => exists visited, stepHistory w = visited ++ [currentStep w])
           (fun _ => true)).
  - intros w ev [visited Hw] _.
    destruct ev; cbn; unfold goToNext, goToPrevious, goToStep, skipToEnd, navigate;
      try (destruct (_ <? _); cbn); eauto.
    exists []. reflexivity.
  - exists []. reflexivity.
  - apply forallb_any.
Qed.

(** X27. As long as [goToStep] is only given indices of [steps], the current
    step and every step of the history are indices of [steps]: the
    component of the current step is always defined. *)
Theorem currentStep_in_range (events : list wizard_event) :
  forallb in_range events = true ->
  currentStep (run_wizard events) < steps_length /\
  Forall (fun i => i < steps_length) (stepHistory (run_wizard events)).
Proof.
  unfold run_wizard.
  apply (run_from_invariant
           (fun w => currentStep w < steps_length /\
                     Forall (fun i => i < steps_length) (stepHistory w))
           in_range).
  - intros w ev [Hc Hh] Hev. unfold steps_length in *.
    assert (Snoc : forall t, t < 6 -> Forall (fun i => i < 6) (stepHistory w ++ [t])).
    { intros t Ht. apply Forall_app. split; [exact Hh|].
      constructor; [exact Ht|constructor]. }
    destruct ev; cbn [wizard_step in_range] in *;
      unfold goToNext, goToPrevious, goToStep, skipToEnd, resetWizard, navigate,
        steps_length;
      cbn [currentStep stepHistory].
    + destruct (currentStep w <? 6 - 1) eqn:E; cbn [currentStep stepHistory]; [|auto].
      apply Nat.ltb_lt in E. split; [lia|apply Snoc; lia].
    + destruct (0 <? currentStep w) eqn:E; cbn [currentStep stepHistory]; [|auto].
      split; [lia|apply Snoc; lia].
    + apply Nat.ltb_lt in Hev. split; [exact Hev|apply Snoc; exact Hev].
    + split; [lia|apply Snoc; lia].
    + split; [lia|constructor; [lia|constructor]].
    + auto.
    + auto.
    + auto.
  - unfold steps_length. cbn. split; [lia|constructor; [lia|constructor]].
Qed.

Lemma currentStep_in_range_witness :
  forallb in_range [Next; Next; Step 4; Previous; SkipToEnd; Next] = true /\
  currentStep (run_wizard [Next; Next; Step 4; Previous; SkipToEnd; Next])
    < steps_length /\
  Forall (fun i => i < steps_length)
         (stepHistory (run_wizard [Next; Next; Step 4; Previous; SkipToEnd; Next])).
Proof.
  split; [reflexivity|].
  apply (currentStep_in_range [Next; Next; Step 4; Previous; SkipToEnd; Next]).
  reflexivity.
Defined.

(** X28. The set of flagged clauses never holds an index twice, whatever is
    toggled, so the location step lists each flagged clause once. *)
Theorem flaggedClauses_NoDup (events : list wizard_event) :
  NoDup (flaggedClauses (run_wizard events)).
Proof.
  unfold run_wizard.
  apply (run_from_invariant (fun w => NoDup (flaggedClauses w)) (fun _ => true)).
  - intros w ev Hw _.
    destruct ev; cbn; unfold goToNext, goToPrevious, goToStep, skipToEnd, navigate;
      try (destruct (_ <? _); cbn); auto.
    + constructor.
    + apply toggleFlagClause_NoDup. exact Hw.
  - constructor.
  - apply forallb_any.
Qed.

(** X29. Before the last step, Next followed by Back returns to the step one
    started from, and the history records both moves. *)
Theorem goToNext_goToPrevious (w : wizard) :
  currentStep w < steps_length - 1 ->
  goToPrevious (goToNext w) =
  mkWizard (currentStep w)
           (stepHistory w ++ [currentStep w + 1; currentStep w])
           (wizard_clauses w) (wizard_query w) (flaggedClauses w).
Proof.
  intros H. unfold goToNext. apply Nat.ltb_lt in H. rewrite H.
  unfold goToPrevious, navigate. cbn [currentStep stepHistory wizard_clauses
                                      wizard_query flaggedClauses].
  replace (0 <? currentStep w + 1) with true
    by (symmetry; apply Nat.ltb_lt; lia).
  rewrite <- app_assoc. cbn [app].
  replace (currentStep w + 1 - 1) with (currentStep w) by lia.
  reflexivity.
Qed.

Lemma goToNext_goToPrevious_witness :
  currentStep (mkWizard 4 [0; 4] [] (lit "custody") [1]) < steps_length - 1 /\
  goToPrevious (goToNext (mkWizard 4 [0; 4] [] (lit "custody") [1])) =
  mkWizard 4 [0; 4; 5; 4] [] (lit "custody") [1].
Proof.
  split; [unfold steps_length; cbn; lia|].
  apply (goToNext_goToPrevious (mkWizard 4 [0; 4] [] (lit "custody") [1])).
  unfold steps_length; cbn; lia.
Defined.
